(** * Lead pipeline of ihale-mcp: shallow embedding and verified properties

    The development embeds the Google Places lead pipeline of the repository:
    - [google_sheets_writer.py]: the postal-prefix table, the address helpers
      ([_normalize_il_name], [_extract_postal_code_from_address],
      [_get_il_from_postal_code], [_is_ilce_valid_for_il],
      [_extract_il_from_location_text], [_parse_il_from_address_only],
      [_parse_il_ilce]), the sheet rows ([_split_phone],
      [_pick_category_for_keyword], [leads_to_sheet_rows]) and the sheet
      appender ([ensure_header], [append_rows]);
    - [google_places_client.py]: the paginated accumulation loop of
      [search_leads] and its best-effort detail enrichment;
    - [maps_mcp.py]: the facade [find_business_leads] (limit clamp,
      [pass_filters], dedupe, export).

    Python values are modelled as follows.  A [str] is the list of its
    Unicode code points.  [None] is [None]; truthiness of an optional string
    is [truthy].  An [int] is a [Z].  Ratings and coordinates (finite JSON
    numbers) are rationals.  Exceptions are values of an error monad. *)

From stdpp Require Import base decidable option list gmap strings pretty.
From Stdlib Require Import ZArith QArith Lia.

Local Open Scope Z_scope.
Local Open Scope list_scope.

(** ** Strings *)

Abbreviation char := N (only parsing).
Abbreviation str := (list N) (only parsing).

(** An ASCII literal as a Python string. *)
Definition lit (x : string) : str := Ascii.N_of_ascii <$> String.list_ascii_of_string x.

(** The Turkish letters named in the source. *)
Definition c_dotless_i : char := 305%N. (* U+0131 *)
Definition c_g_breve : char := 287%N.   (* U+011F *)
Definition c_u_uml : char := 252%N.     (* U+00FC *)
Definition c_s_cedilla : char := 351%N. (* U+015F *)
Definition c_o_uml : char := 246%N.     (* U+00F6 *)
Definition c_c_cedilla : char := 231%N. (* U+00E7 *)

(** The literal "Türkiye". *)
Definition Turkiye : str := lit "T" ++ [c_u_uml] ++ lit "rkiye".

(** The character database of the Python runtime is not part of the
    repository; the functions below take it as a parameter.
    - [isspace]: the white space of [str.strip], [str.split()] and [\s];
    - [isdecimal]: the class [\d] of [re] on [str] patterns;
    - [isword]: the class [\w], which fixes the boundaries [\b];
    - [lower], [upper]: [str.lower] and [str.upper]. *)
Class UnicodeDB := {
  isspace : char → bool;
  isdecimal : char → bool;
  isword : char → bool;
  lower : str → str;
  upper : str → str
}.

(** Truthiness of [Optional[str]]: [None] and the empty string are falsy. *)
Definition truthy (o : option str) : bool :=
  match o with
  | Some (_ :: _) => true
  | _ => false
  end.

Definition nonempty (x : str) : bool :=
  match x with
  | [] => false
  | _ :: _ => true
  end.

(** [s.startswith(p)]. *)
Fixpoint startswith (p x : str) : bool :=
  match p, x with
  | [], _ => true
  | _ :: _, [] => false
  | a :: p', b :: x' => bool_decide (a = b) && startswith p' x'
  end.

(** [needle in hay]. *)
Fixpoint contains (needle hay : str) : bool :=
  startswith needle hay ||
  match hay with
  | [] => false
  | _ :: hay' => contains needle hay'
  end.

(** [s.replace(old, new)] for a non-empty [old] (every call site passes a
    non-empty literal): occurrences are replaced from the left and do not
    overlap; [skip] counts the characters of a match still to be dropped. *)
Fixpoint replace_from (old new : str) (skip : nat) (x : str) : str :=
  match x with
  | [] => []
  | c :: x' =>
      match skip with
      | S k => replace_from old new k x'
      | O =>
          if startswith old x
          then new ++ replace_from old new (pred (length old)) x'
          else c :: replace_from old new 0 x'
      end
  end.

Definition replace (old new x : str) : str := replace_from old new 0 x.

(** [s.split(sep)] for a one-character separator; never the empty list. *)
Fixpoint split_on (sep : char) (x : str) : list str :=
  match x with
  | [] => [[]]
  | c :: x' =>
      if bool_decide (c = sep) then [] :: split_on sep x'
      else match split_on sep x' with
           | p :: ps => (c :: p) :: ps
           | [] => [[c]]
           end
  end.

Definition comma : char := 44%N.
Definition slash : char := 47%N.

(** [l[-1]] and [l[-2]] on a list of strings. *)
Definition last_part (parts : list str) : str := default [] (last parts).
Definition second_last_part (parts : list str) : option str :=
  match reverse parts with
  | _ :: p :: _ => Some p
  | _ => None
  end.

Section Text.
Context `{UnicodeDB}.

(** [s.strip()]. *)
Fixpoint lstrip (x : str) : str :=
  match x with
  | [] => []
  | c :: x' => if isspace c then lstrip x' else x
  end.

Definition rstrip (x : str) : str := reverse (lstrip (reverse x)).
Definition strip (x : str) : str := rstrip (lstrip x).

(** [s.split()]: the maximal runs of non-space characters. *)
Fixpoint split_ws (x : str) : list str :=
  match x with
  | [] => []
  | c :: x' =>
      if isspace c then split_ws x'
      else match x' with
           | [] => [[c]]
           | d :: _ =>
               if isspace d then [c] :: split_ws x'
               else match split_ws x' with
                    | w :: ws => (c :: w) :: ws
                    | [] => [[c]]
                    end
           end
  end.

(** [\d{5}] matches at the head of [x]. *)
Definition five_decimals (x : str) : bool :=
  match x with
  | a :: b :: c :: d :: e :: _ =>
      isdecimal a && isdecimal b && isdecimal c && isdecimal d && isdecimal e
  | _ => false
  end.

(** [\b] between two neighbours; the ends of the string count as
    non-word. *)
Definition word_at (o : option char) : bool :=
  match o with
  | Some c => isword c
  | None => false
  end.

Definition boundary (before after : option char) : bool :=
  xorb (word_at before) (word_at after).

(** [re.search(r'\b(\d{5})\b', x)]: the leftmost match, [before] being the
    character that precedes [x] in the whole string. *)
Fixpoint search_postal_from (before : option char) (x : str) : option str :=
  match x with
  | [] => None
  | c :: x' =>
      if boundary before (Some c) && five_decimals x
         && boundary (x !! 4%nat) (x !! 5%nat)
      then Some (take 5 x)
      else search_postal_from (Some c) x'
  end.

(** [re.search(r'\d{5}', x)] as a truth value. *)
Fixpoint has_five_decimals (x : str) : bool :=
  five_decimals x ||
  match x with
  | [] => false
  | _ :: x' => has_five_decimals x'
  end.

(** [re.sub(r'\d{5}\s*', '', x)]: [skip] counts the digits of the current
    match still to be dropped, [ws] tells that the scan is inside the
    greedy [\s*] of a match. *)
Fixpoint sub_postal_from (skip : nat) (ws : bool) (x : str) : str :=
  match x with
  | [] => []
  | c :: x' =>
      match skip with
      | S k => sub_postal_from k true x'
      | O =>
          if ws && isspace c then sub_postal_from 0 true x'
          else if five_decimals x then sub_postal_from 4 true x'
          else c :: sub_postal_from 0 false x'
      end
  end.

Definition sub_postal (x : str) : str := sub_postal_from 0 false x.

(** [re.sub(r'^\d{5}\s*', '', x)]. *)
Definition sub_leading_postal (x : str) : str :=
  if five_decimals x then lstrip (drop 5 x) else x.
End Text.

(** ** The postal-prefix table ([google_sheets_writer.py]) *)

(** [POSTAL_CODE_TO_IL], in the order of the dict literal (the order in which
    [.values()] iterates). *)
Definition POSTAL_CODE_TO_IL : list (str * str) :=
  (λ kv : string * string, (lit kv.1, lit kv.2)) <$>
  [ ("01", "adana"); ("02", "adiyaman"); ("03", "afyonkarahisar");
    ("04", "agri"); ("05", "amasya"); ("06", "ankara"); ("07", "antalya");
    ("08", "artvin"); ("09", "aydin"); ("10", "balikesir"); ("11", "bilecik");
    ("12", "bingol"); ("13", "bitlis"); ("14", "bolu"); ("15", "burdur");
    ("16", "bursa"); ("17", "canakkale"); ("18", "cankiri"); ("19", "corum");
    ("20", "denizli"); ("21", "diyarbakir"); ("22", "edirne");
    ("23", "elazig"); ("24", "erzincan"); ("25", "erzurum");
    ("26", "eskisehir"); ("27", "gaziantep"); ("28", "giresun");
    ("29", "gumushane"); ("30", "hakkari"); ("31", "hatay"); ("32", "isparta");
    ("33", "mersin"); ("34", "istanbul"); ("35", "izmir"); ("36", "kars");
    ("37", "kastamonu"); ("38", "kayseri"); ("39", "kirklareli");
    ("40", "kirsehir"); ("41", "kocaeli"); ("42", "konya"); ("43", "kutahya");
    ("44", "malatya"); ("45", "manisa"); ("46", "kahramanmaras");
    ("47", "mardin"); ("48", "mugla"); ("49", "mus"); ("50", "nevsehir");
    ("51", "nigde"); ("52", "ordu"); ("53", "rize"); ("54", "sakarya");
    ("55", "samsun"); ("56", "siirt"); ("57", "sinop"); ("58", "sivas");
    ("59", "tekirdag"); ("60", "tokat"); ("61", "trabzon"); ("62", "tunceli");
    ("63", "sanliurfa"); ("64", "usak"); ("65", "van"); ("66", "yozgat");
    ("67", "zonguldak"); ("68", "aksaray"); ("69", "bayburt");
    ("70", "karaman"); ("71", "kirikkale"); ("72", "batman"); ("73", "sirnak");
    ("74", "bartin"); ("75", "ardahan"); ("76", "igdir"); ("77", "yalova");
    ("78", "karabuk"); ("79", "kilis"); ("80", "osmaniye"); ("81", "duzce") ].

(** [d.get(k)] on a dict literal whose keys are distinct. *)
Fixpoint dict_get (k : str) (d : list (str * str)) : option str :=
  match d with
  | [] => None
  | (k', v) :: d' => if decide (k = k') then Some v else dict_get k d'
  end.

(** An optional string that is used only when truthy ([if x: ...]). *)
Definition when_truthy (o : option str) : option str :=
  if truthy o then o else None.

(** ** Address helpers ([google_sheets_writer.py]) *)

Section Resolver.
Context `{UnicodeDB}.

Definition _normalize_il_name (il_name : str) : str :=
  replace [c_c_cedilla] (lit "c")
    (replace [c_o_uml] (lit "o")
      (replace [c_s_cedilla] (lit "s")
        (replace [c_u_uml] (lit "u")
          (replace [c_g_breve] (lit "g")
            (replace [c_dotless_i] (lit "i")
              (lower (strip il_name))))))).

Definition _extract_postal_code_from_address (address : str) : option str :=
  search_postal_from None address.

Definition _get_il_from_postal_code (postal_code : str) : option str :=
  if decide (2 ≤ length postal_code)%nat
  then dict_get (take 2 postal_code) POSTAL_CODE_TO_IL
  else None.

(** The province of the first postal code of the address, when both are
    truthy: the pattern [postal_code = ...; if postal_code: postal_il = ...;
    if postal_il: ...] shared by the functions below. *)
Definition postal_il_of (address : str) : option str :=
  match when_truthy (_extract_postal_code_from_address address) with
  | Some postal_code => when_truthy (_get_il_from_postal_code postal_code)
  | None => None
  end.

Definition _is_ilce_valid_for_il (ilce il address : option str) : bool :=
  if negb (truthy ilce) || negb (truthy il) then true
  else
    match when_truthy address, il with
    | Some a, Some il' =>
        match postal_il_of a with
        | Some postal_il =>
            if decide (_normalize_il_name il' ≠ _normalize_il_name postal_il)
            then false else true
        | None => true
        end
    | _, _ => true
    end.

Definition _extract_il_from_location_text (location_text : str)
  : option str :=
  if negb (nonempty location_text) then None
  else
    let loc_clean :=
      strip (replace (lit "turkey") [] (replace Turkiye [] location_text)) in
    let parts := strip <$> split_on comma loc_clean in
    match parts with
    | _ :: _ => Some (strip (last_part parts))
    | [] => if nonempty loc_clean then Some (strip loc_clean) else None
    end.

(** The trailing segment as [_parse_il_from_address_only] cleans it: the
    country name and every run [\d{5}\s*] removed. *)
Definition clean_last_part (parts : list str) : str :=
  strip (sub_postal
    (strip (replace (lit "turkey") []
      (replace Turkiye [] (strip (last_part parts)))))).

(** The test that admits the second-to-last segment. *)
Definition short_name (second_last : str) : bool :=
  negb (has_five_decimals second_last)
  && bool_decide (length (split_ws second_last) ≤ 3)%nat.

(** The known province whose normal form is that of [parsed_il], or
    [parsed_il] itself. *)
Definition known_il (parsed_il : str) : str :=
  let parsed_il := strip parsed_il in
  let parsed_il_norm := _normalize_il_name parsed_il in
  match List.find
          (λ il_name, bool_decide (_normalize_il_name il_name = parsed_il_norm))
          (POSTAL_CODE_TO_IL.*2) with
  | Some il_name => il_name
  | None => parsed_il
  end.

(** Lines 281-306 of [_parse_il_from_address_only]: the province read off
    the segment [last_part]. *)
Definition il_of_last_part (last_part : str) : option str :=
  let parsed_il :=
    if contains [slash] last_part then
      match strip <$> split_on slash last_part with
      | _ :: il :: _ => il
      | [il] => il
      | [] => last_part
      end
    else last_part in
  if nonempty parsed_il then Some (known_il parsed_il) else None.

Definition _parse_il_from_address_only (address : option str)
  : option str :=
  match when_truthy address with
  | None => None
  | Some address =>
      match postal_il_of address with
      | Some postal_il => Some postal_il
      | None =>
          let parts := strip <$> split_on comma address in
          match parts with
          | [] => None
          | _ :: _ =>
              let last_part := clean_last_part parts in
              let last_part :=
                if nonempty last_part then last_part
                else match second_last_part parts with
                     | Some p =>
                         let second_last := strip p in
                         if short_name second_last then second_last
                         else last_part
                     | None => last_part
                     end in
              il_of_last_part last_part
          end
      end
  end.

(** Lines 335-359 of [_parse_il_ilce]: the province and district read off
    the comma-separated [parts] before any reconciliation. *)
Definition parse_candidates (parts : list str) : option str * option str :=
  let last_part := last_part parts in
  let '(parsed_il, parsed_ilce) :=
    if contains [slash] last_part then
      match strip <$> split_on slash last_part with
      | ilce :: il :: _ => (Some il, Some (strip (sub_leading_postal ilce)))
      | [il] => (Some il, None)
      | [] => (None, None)
      end
    else (Some last_part, None) in
  let parsed_ilce :=
    if negb (truthy parsed_ilce) then
      match second_last_part parts with
      | Some p =>
          let second_last := strip p in
          if short_name second_last then Some second_last else parsed_ilce
      | None => parsed_ilce
      end
    else parsed_ilce in
  (parsed_il, parsed_ilce).

Definition _parse_il_ilce (address location_text : option str)
  : option str * option str :=
  let location_il :=
    match when_truthy location_text with
    | Some t => _extract_il_from_location_text t
    | None => None
    end in
  match when_truthy address with
  | None => (location_il, None)
  | Some a =>
      let postal_il := postal_il_of a in
      let parts := strip <$> split_on comma a in
      match parts with
      | [] => (location_il, None)
      | _ :: _ =>
          let '(parsed_il, parsed_ilce) := parse_candidates parts in
          let '(final_il, final_ilce) :=
            match when_truthy location_il with
            | Some loc =>
                let loc_il_norm := _normalize_il_name loc in
                match postal_il with
                | Some postal_il =>
                    if decide (loc_il_norm ≠ _normalize_il_name postal_il)
                    then (location_il, None)
                    else
                      match when_truthy parsed_il with
                      | Some p =>
                          if decide (loc_il_norm ≠ _normalize_il_name p)
                          then (location_il, parsed_ilce)
                          else (parsed_il, parsed_ilce)
                      | None => (location_il, parsed_ilce)
                      end
                | None =>
                    match when_truthy parsed_il with
                    | Some p =>
                        let parsed_il_norm := _normalize_il_name p in
                        if negb (contains loc_il_norm parsed_il_norm)
                           && negb (contains parsed_il_norm loc_il_norm)
                        then (location_il, None)
                        else (parsed_il, parsed_ilce)
                    | None => (location_il, parsed_ilce)
                    end
                end
            | None => (parsed_il, parsed_ilce)
            end in
          let final_ilce :=
            if truthy final_il && truthy final_ilce
               && negb (_is_ilce_valid_for_il final_ilce final_il address)
            then None else final_ilce in
          (final_il, final_ilce)
      end
  end.
End Resolver.

(** ** The character database on U+0000..U+017F

    CPython's tables restricted to Basic Latin, Latin-1 Supplement and Latin
    Extended-A, the blocks in which Turkish addresses are written.  Beyond
    U+017F the instance classifies nothing and changes no case; it is used
    only on strings inside these blocks. *)
Module Latin.
Local Open Scope N_scope.

Definition between (lo hi c : N) : bool := (lo <=? c) && (c <=? hi).

Definition is_space (c : N) : bool :=
  between 9 13 c || between 28 32 c || (c =? 133) || (c =? 160).

Definition is_decimal (c : N) : bool := between 48 57 c.

Definition is_word (c : N) : bool :=
  if c <? 128 then
    between 48 57 c || between 65 90 c || (c =? 95) || between 97 122 c
  else
    (c =? 170) || (c =? 178) || (c =? 179) || (c =? 181) || (c =? 185)
    || (c =? 186) || between 188 190 c
    || (between 192 383 c && negb (c =? 215) && negb (c =? 247)).

Definition lower_char (c : N) : list N :=
  if between 65 90 c then [c + 32]
  else if between 192 222 c && negb (c =? 215) then [c + 32]
  else if c =? 304 then [105; 775]
  else if c =? 376 then [255]
  else if between 256 310 c && N.even c then [c + 1]
  else if between 313 327 c && N.odd c then [c + 1]
  else if between 330 374 c && N.even c then [c + 1]
  else if between 377 381 c && N.odd c then [c + 1]
  else [c].

Definition upper_char (c : N) : list N :=
  if between 97 122 c then [c - 32]
  else if c =? 181 then [924]
  else if c =? 223 then [83; 83]
  else if between 224 254 c && negb (c =? 247) then [c - 32]
  else if c =? 255 then [376]
  else if c =? 305 then [73]
  else if between 257 311 c && N.odd c then [c - 1]
  else if between 314 328 c && N.even c then [c - 1]
  else if c =? 329 then [700; 78]
  else if between 331 375 c && N.odd c then [c - 1]
  else if between 378 382 c && N.even c then [c - 1]
  else if c =? 383 then [83]
  else [c].

Definition db : UnicodeDB :=
  {| isspace := is_space;
     isdecimal := is_decimal;
     isword := is_word;
     lower x := x ≫= lower_char;
     upper x := x ≫= upper_char |}.
End Latin.

(** ** The places client ([google_places_client.py]) *)

(** The [details] block attached by enrichment, and the provider record
    (a JSON object) with the keys the pipeline reads. *)
Record details := {
  formatted_phone_number : option str;
  international_phone_number : option str;
  d_website : option str;
  opening_hours : option (option bool) (* the object and its [open_now] *)
}.

Record raw_result := {
  r_name : option str;
  r_formatted_address : option str;
  r_lat : option Q;
  r_lng : option Q;
  r_place_id : option str;
  r_types : list str;
  r_rating : option Q;
  r_user_ratings_total : option Z;
  r_business_status : option str;
  r_details : option details
}.

Definition set_details (d : details) (item : raw_result) : raw_result :=
  {| r_name := r_name item;
     r_formatted_address := r_formatted_address item;
     r_lat := r_lat item;
     r_lng := r_lng item;
     r_place_id := r_place_id item;
     r_types := r_types item;
     r_rating := r_rating item;
     r_user_ratings_total := r_user_ratings_total item;
     r_business_status := r_business_status item;
     r_details := Some d |}.

(** One answer of [text_search]. *)
Record page := {
  status : option str;
  results : list raw_result;
  next_page_token : option str
}.

(** What one call of [place_details] does inside the [try]: it raises (a
    transport error, a timeout, a payload that is not an object), or it
    answers with a status and a [result] object. *)
Inductive lookup :=
  | LookupRaised
  | LookupReplied (details_status : option str) (result : details).

(** The effects of the accumulation loop. *)
Inductive event :=
  | Request (pagetoken : option str)
  | Sleep.

Inductive loop_outcome :=
  | LoopDone (collected : list raw_result) (unread : list page)
  | LoopError (bad_status : option str) (data : page)
  | LoopPending (collected : list raw_result).

Inductive search_error :=
  | GeocodeFailure (location_input : str)
  | ProviderError (bad_status : option str) (raw : page).

Inductive search_result :=
  | SearchFailed (e : search_error)
  | SearchOk (leads_raw : list raw_result) (location : Q * Q)
  | SearchPending.

(** The provider as one run meets it: [geocode_api] answers the geocoding
    request for a query text ([None] when the status is not OK or there is no
    result), [pages] are the answers of the successive [text_search] calls,
    [place_details_api i pid] is the lookup issued for the [i]-th collected
    item. *)
Record provider := {
  geocode_api : str → option (Q * Q);
  pages : list page;
  place_details_api : nat → str → lookup
}.

Definition is_status (name : string) (st : option str) : bool :=
  bool_decide (st = Some (lit name)).

Section Places.
Context `{UnicodeDB}.

(** The text sent to the geocoder. *)
Definition location_query (location_text : str) : str :=
  let q := strip location_text in
  if nonempty q
     && negb (contains (lit "t" ++ [c_u_uml] ++ lit "rkiye") (lower q))
     && negb (contains (lit "turkey") (lower q))
  then
    if negb (contains [comma] q)
       && bool_decide (length (split_ws q) ≤ 3)%nat
    then q ++ lit ", " ++ Turkiye
    else q
  else q.

Definition geocode (p : provider) (location_text : str) : option (Q * Q) :=
  geocode_api p (location_query location_text).

(** The inner [for] of the loop: items are appended one at a time and the
    loop breaks as soon as [limit] is reached. *)
Fixpoint append_capped (limit : Z) (collected items : list raw_result)
  : list raw_result :=
  match items with
  | [] => collected
  | item :: items' =>
      if decide (limit ≤ Z.of_nat (length collected)) then collected
      else append_capped limit (collected ++ [item]) items'
  end.

(** The [while] loop of [search_leads], reading the provider's answers off
    [script]; it returns the effects in order and how the loop ended. *)
Fixpoint search_loop (limit : Z) (collected : list raw_result)
    (next_token : option str) (script : list page)
  : list event * loop_outcome :=
  if decide (Z.of_nat (length collected) < limit) then
    match script with
    | [] => ([], LoopPending collected)
    | data :: script' =>
        let st := status data in
        if negb (is_status "OK" st || is_status "ZERO_RESULTS" st)
        then ([Request next_token], LoopError st data)
        else
          let collected := append_capped limit collected (results data) in
          let next_token' := next_page_token data in
          if negb (truthy next_token')
             || bool_decide (limit ≤ Z.of_nat (length collected))
             || is_status "ZERO_RESULTS" st
          then ([Request next_token], LoopDone collected script')
          else
            let '(evs, out) := search_loop limit collected next_token' script' in
            (Request next_token :: Sleep :: evs, out)
    end
  else ([], LoopDone collected script).

(** [enrich]: the item is left as it is unless the lookup answers OK. *)
Definition enrich (place_details : str → lookup) (item : raw_result)
  : raw_result :=
  match when_truthy (r_place_id item) with
  | None => item
  | Some place_id =>
      match place_details place_id with
      | LookupReplied st result =>
          if is_status "OK" st then set_details result item else item
      | LookupRaised => item
      end
  end.

(** [asyncio.gather] over the collected items: every task updates its own
    item in place, so the batch is the list of the enriched items in the
    order of collection. *)
Definition enrich_all (p : provider) (collected : list raw_result)
  : list raw_result :=
  imap (λ i item, enrich (place_details_api p i) item) collected.

Definition search_leads (p : provider) (location_text : str) (limit : Z)
    (include_details : bool) : search_result :=
  match geocode p location_text with
  | None => SearchFailed (GeocodeFailure location_text)
  | Some location =>
      match (search_loop limit [] None (pages p)).2 with
      | LoopError st data => SearchFailed (ProviderError st data)
      | LoopPending _ => SearchPending
      | LoopDone collected _ =>
          let collected :=
            if include_details && bool_decide (collected ≠ [])
            then enrich_all p collected else collected in
          SearchOk collected location
      end
  end.
End Places.

(** ** The sheet appender ([google_sheets_writer.py]) *)

(** Exceptions: the class that the source raises itself, and any other
    subclass of [Exception]; [str(e)] is the message. *)
Inductive exn :=
  | RuntimeError (message : str)
  | OtherException (message : str).

Definition exn_str (e : exn) : str :=
  match e with
  | RuntimeError m => m
  | OtherException m => m
  end.

(** Computations that return or raise. *)
Definition result (A : Type) : Type := exn + A.
Definition ret {A} (a : A) : result A := inr a.
Definition raise {A} (e : exn) : result A := inl e.
Definition bind {A B} (m : result A) (k : A → result B) : result B :=
  match m with
  | inl e => inl e
  | inr a => k a
  end.

Notation "'let!' x ':=' m 'in' k" := (bind m (λ x, k))
  (at level 10, x name, m at level 100, k at level 200,
   format "'[v' 'let!'  x  ':='  m  'in' '/' k ']'").

(** The Sheets web service behind one appender: each request answers or
    raises. *)
Record sheets_api := {
  api_titles : result (list (option str));
  api_first_row : result (list (option str));
  api_update_header : list str → result unit;
  api_append : list (list str) → result (option str * option Z)
}.

Record GoogleSheetsWriteResult := {
  res_spreadsheet_id : str;
  res_sheet_name : str;
  updated_range : option str;
  updated_rows : option Z
}.

Record GoogleSheetsAppender := {
  spreadsheet_id : str;
  sheet_name : str;
  _service : sheets_api
}.

(** The process environment and what building the service from the stored
    credentials gives. *)
Record environment := {
  GOOGLE_SHEETS_AUTO_EXPORT : option str;
  GOOGLE_SHEETS_SPREADSHEET_ID : option str;
  GOOGLE_SHEETS_SHEET_NAME : option str;
  build_service : result sheets_api
}.

Definition quote : char := 34%N.

(** The message of the error raised when the tab is missing. *)
Definition missing_sheet_message (sheet_name : str) : str :=
  lit "Google Sheets sayfas" ++ [c_dotless_i] ++ lit " " ++ [quote]
  ++ sheet_name ++ [quote] ++ lit " bulunamad" ++ [c_dotless_i] ++ lit ". L"
  ++ [c_u_uml] ++ lit "tfen " ++ [c_o_uml] ++ lit "nce " ++ [quote]
  ++ sheet_name ++ [quote] ++ lit " ad" ++ [c_dotless_i]
  ++ lit "nda bir sayfa olu" ++ [c_s_cedilla] ++ lit "turun.".

Section Appender.
Definition new_appender (env : environment) (spreadsheet_id' : option str)
    (sheet_name' : option str) : result GoogleSheetsAppender :=
  let sid :=
    if truthy spreadsheet_id' then spreadsheet_id'
    else GOOGLE_SHEETS_SPREADSHEET_ID env in
  match when_truthy sid with
  | None =>
      raise (RuntimeError
        (lit "spreadsheet_id verilmedi (GOOGLE_SHEETS_SPREADSHEET_ID)."))
  | Some sid =>
      let! service := build_service env in
      ret {| spreadsheet_id := sid;
             sheet_name := lit "Leads";
             _service := service |}
  end.

Definition _check_sheet_exists (a : GoogleSheetsAppender) : result bool :=
  let! existing := api_titles (_service a) in
  ret (bool_decide (Some (sheet_name a) ∈ existing)).

Definition _get_first_row (a : GoogleSheetsAppender)
  : result (list (option str)) :=
  api_first_row (_service a).

Definition ensure_header (a : GoogleSheetsAppender) (header : list str)
  : result unit :=
  let! ok := _check_sheet_exists a in
  if negb ok then raise (RuntimeError (missing_sheet_message (sheet_name a)))
  else
    let! row := _get_first_row a in
    let existing := omap id row in
    match existing with
    | _ :: _ => ret tt
    | [] => api_update_header (_service a) header
    end.

Definition append_rows (a : GoogleSheetsAppender) (rows : list (list str))
  : result GoogleSheetsWriteResult :=
  let! ok := _check_sheet_exists a in
  if negb ok then raise (RuntimeError (missing_sheet_message (sheet_name a)))
  else
    let! upd := api_append (_service a) rows in
    ret {| res_spreadsheet_id := spreadsheet_id a;
           res_sheet_name := sheet_name a;
           updated_range := upd.1;
           updated_rows := upd.2 |}.
End Appender.

(** ** The facade ([maps_mcp.py]) *)

(** The normalized lead built from a provider record. *)
Record lead := {
  name : option str;
  formatted_address : option str;
  latitude : option Q;
  longitude : option Q;
  place_id : option str;
  types : list str;
  rating : option Q;
  user_ratings_total : option Z;
  business_status : option str;
  phone : option str;
  phone_intl : option str;
  website : option str;
  open_now : option bool
}.

Definition to_lead (r : raw_result) : lead :=
  let det := r_details r in
  {| name := r_name r;
     formatted_address := r_formatted_address r;
     latitude := r_lat r;
     longitude := r_lng r;
     place_id := r_place_id r;
     types := r_types r;
     rating := r_rating r;
     user_ratings_total := r_user_ratings_total r;
     business_status := r_business_status r;
     phone := det ≫= formatted_phone_number;
     phone_intl := det ≫= international_phone_number;
     website := det ≫= d_website;
     open_now := mjoin (det ≫= opening_hours) |}.

Record filters := {
  min_rating : option Q;
  min_user_ratings_total : option Z;
  types_include : option (list str);
  types_exclude : option (list str);
  require_phone_or_website : bool;
  only_open_now : option bool;
  business_status_in : option (list str)
}.

Inductive dedupe_by := by_place_id | by_name_address.
Inductive output_format := json | csv.

(** The keys of the two dedupe modes: a [place_id] (possibly [None]) or the
    pair of normalized name and address. *)
Abbreviation dedupe_key := (option (list N) + list N * list N)%type (only parsing).

(** The annotation [google_sheets] of a response. *)
Inductive sheets_note :=
  | SheetsOk (auto_export : bool) (written : GoogleSheetsWriteResult)
      (rows_sent : nat)
  | SheetsFailed (auto_export : bool) (error : str).

(** What the tool returns, the places client being configured (its
    constructor raises without an API key): the error envelope of the
    search, the CSV envelope (its rows before serialization), or the JSON
    envelope.  The [meta] block only echoes the arguments and is left out.
    [Pending] stands for a run whose provider script ended before the loop
    did. *)
Inductive response :=
  | ErrorEnvelope (e : search_error)
  | CsvEnvelope (total : nat) (columns : list str) (rows : list lead)
  | JsonEnvelope (leads : list lead) (total : nat)
      (google_sheets : option sheets_note)
  | Pending.

Definition default_cols : list str :=
  lit <$> [ "name"; "formatted_address"; "latitude"; "longitude"; "place_id";
            "types"; "rating"; "user_ratings_total"; "business_status";
            "phone"; "phone_intl"; "website" ]%string.

(** The dedupe loop over any key function: [seen] is the set of the keys met
    so far, [unique] the leads kept so far. *)
Fixpoint dedupe_loop `{Countable K} (key : lead → K) (seen : gset K)
    (unique filtered : list lead) : list lead :=
  match filtered with
  | [] => unique
  | x :: filtered' =>
      if decide (key x ∈ seen) then dedupe_loop key seen unique filtered'
      else dedupe_loop key ({[key x]} ∪ seen) (unique ++ [x]) filtered'
  end.

Section Facade.
Context `{UnicodeDB}.

(** [leads_to_sheet_rows]: the header and the rows sent to the sheet.  What
    the rows hold plays no part below; the function is pure and is taken
    as given. *)
Variable leads_to_sheet_rows :
  list lead → str → bool → list str * list (list str).

Definition clamp_limit (limit : Z) : Z :=
  let limit := if decide (limit < 1) then 1 else limit in
  if decide (limit > 120) then 120 else limit.

(** Lines 117-149 of [pass_filters]: [false] where the source returns
    [False], [true] where it goes on to the other filters. *)
Definition geo_gate (location_il : option str) (item : lead) : bool :=
  match when_truthy location_il, when_truthy (formatted_address item) with
  | Some location_il, Some address =>
      let loc_il_norm := _normalize_il_name location_il in
      match when_truthy (_extract_postal_code_from_address address) with
      | Some postal_code =>
          match when_truthy (_get_il_from_postal_code postal_code) with
          | Some postal_il =>
              if decide (loc_il_norm ≠ _normalize_il_name postal_il)
              then false else true
          | None => false
          end
      | None =>
          match when_truthy (_parse_il_from_address_only (Some address)) with
          | Some parsed_il_raw =>
              if decide (loc_il_norm ≠ _normalize_il_name parsed_il_raw)
              then false else true
          | None =>
              let address_lower := lower address in
              if negb (contains loc_il_norm address_lower)
              then false else true
          end
      end
  | _, _ => true
  end.

Definition nonempty_list {A} (o : option (list A)) : option (list A) :=
  match o with
  | Some (_ :: _) => o
  | _ => None
  end.

(** [r < m] on finite numbers. *)
Definition Q_lt (r m : Q) : bool := negb (Qle_bool m r).

(** Lines 151-175 of [pass_filters]. *)
Definition attribute_filters (f : filters) (item : lead) : bool :=
  (match min_rating f with
   | Some m =>
       match rating item with
       | Some r => negb (Q_lt r m)
       | None => false
       end
   | None => true
   end)
  && (match min_user_ratings_total f with
      | Some m =>
          match user_ratings_total item with
          | Some ur => negb (bool_decide (ur < m))
          | None => false
          end
      | None => true
      end)
  && (match nonempty_list (types_include f) with
      | Some ts =>
          bool_decide (Exists (λ t, t ∈ lower <$> ts) (types item))
      | None => true
      end)
  && (match nonempty_list (types_exclude f) with
      | Some ts =>
          negb (bool_decide (Exists (λ t, t ∈ lower <$> ts) (types item)))
      | None => true
      end)
  && negb (require_phone_or_website f
           && negb (truthy (phone item) || truthy (website item)))
  && negb (bool_decide (only_open_now f = Some true)
           && negb (bool_decide (open_now item = Some true)))
  && (match nonempty_list (business_status_in f) with
      | Some ss =>
          let bs := upper (default [] (when_truthy (business_status item))) in
          bool_decide (bs ∈ upper <$> ss)
      | None => true
      end).

Definition pass_filters (location_il : option str) (f : filters)
    (item : lead) : bool :=
  if negb (geo_gate location_il item) then false
  else attribute_filters f item.

Definition key_of (mode : dedupe_by) (x : lead) : dedupe_key :=
  match mode with
  | by_name_address =>
      inr (lower (strip (default [] (when_truthy (name x)))),
           lower (strip (default [] (when_truthy (formatted_address x)))))
  | by_place_id => inl (place_id x)
  end.

Definition dedupe (mode : dedupe_by) (filtered : list lead) : list lead :=
  dedupe_loop (key_of mode) ∅ [] filtered.

(** The filter and dedupe stages on the normalized leads. *)
Definition filter_pipeline (location_il : option str) (f : filters)
    (mode : dedupe_by) (leads_out : list lead) : list lead :=
  dedupe mode (List.filter (pass_filters location_il f) leads_out).

Definition auto_export_on (env : environment) : bool :=
  let v := lower (strip (default [] (GOOGLE_SHEETS_AUTO_EXPORT env))) in
  bool_decide (v ∈ lit <$> ["1"; "true"; "yes"; "on"]%string).

(** The body of the [try] of the export step. *)
Definition export (env : environment) (keyword : str)
    (google_sheets_spreadsheet_id google_sheets_sheet_name : option str)
    (include_raw_json : bool) (unique : list lead)
  : result (GoogleSheetsWriteResult * nat) :=
  let sheet_name :=
    if truthy google_sheets_sheet_name then google_sheets_sheet_name
    else if truthy (GOOGLE_SHEETS_SHEET_NAME env)
         then GOOGLE_SHEETS_SHEET_NAME env
         else Some (lit "Leads") in
  let! appender :=
    new_appender env google_sheets_spreadsheet_id sheet_name in
  let '(header, rows) := leads_to_sheet_rows unique keyword include_raw_json in
  let! _ := ensure_header appender header in
  let! write_res := append_rows appender rows in
  ret (write_res, length rows).

(** Line 109: the declared province of the query. *)
Definition declared_il (location_text : str) : option str :=
  if nonempty location_text
  then _extract_il_from_location_text location_text else None.

(** The arguments of the tool. *)
Record request := {
  keyword : str;
  location_text : str;
  limit : Z;
  include_details : bool;
  req_filters : filters;
  req_output_format : output_format;
  csv_columns : option (list str);
  req_dedupe_by : dedupe_by;
  export_to_google_sheets : bool;
  google_sheets_spreadsheet_id : option str;
  google_sheets_sheet_name : option str;
  google_sheets_include_raw_json : bool
}.

Definition find_business_leads (p : provider) (env : environment)
    (q : request) : response :=
  let limit := clamp_limit (limit q) in
  match search_leads p (location_text q) limit (include_details q) with
  | SearchFailed e => ErrorEnvelope e
  | SearchPending => Pending
  | SearchOk leads_raw _ =>
      let leads_out := to_lead <$> leads_raw in
      let location_il := declared_il (location_text q) in
      let unique :=
        filter_pipeline location_il (req_filters q) (req_dedupe_by q)
          leads_out in
      match req_output_format q with
      | csv =>
          let wanted :=
            default default_cols (nonempty_list (csv_columns q)) in
          let cols :=
            List.filter (λ c, bool_decide (c ∈ default_cols)) wanted in
          let cols := match cols with [] => default_cols | _ => cols end in
          CsvEnvelope (length unique) cols unique
      | json =>
          let auto_export := auto_export_on env in
          let note :=
            if export_to_google_sheets q || auto_export then
              match export env (keyword q) (google_sheets_spreadsheet_id q)
                      (google_sheets_sheet_name q)
                      (google_sheets_include_raw_json q) unique with
              | inr (write_res, rows_sent) =>
                  Some (SheetsOk auto_export write_res rows_sent)
              | inl e => Some (SheetsFailed auto_export (exn_str e))
              end
            else None in
          JsonEnvelope unique (length unique) note
      end
  end.
End Facade.

(** ** Reference formulations and sample data used by the statements *)

(** Deduplication as a recursive function: a lead is kept when its key is
    not among the keys met before it. *)
Fixpoint keep_first `{Countable K} (key : lead → K) (seen : gset K)
    (l : list lead) : list lead :=
  match l with
  | [] => []
  | x :: l' =>
      if decide (key x ∈ seen) then keep_first key seen l'
      else x :: keep_first key ({[key x]} ∪ seen) l'
  end.

(** The number of pages requested in a run of the loop. *)
Definition requests (evs : list event) : nat :=
  length (List.filter (λ e, match e with Request _ => true | Sleep => false end) evs).

(** A detail lookup that fails: it raises or answers with a status that is
    not OK. *)
Definition lookup_fails (lk : lookup) : Prop :=
  match lk with
  | LookupRaised => True
  | LookupReplied st _ => st ≠ Some (lit "OK")
  end.


(** The leads carried by a response. *)
Definition delivered (r : response) : list lead :=
  match r with
  | JsonEnvelope leads _ _ => leads
  | CsvEnvelope _ _ rows => rows
  | _ => []
  end.

Definition no_filters : filters :=
  {| min_rating := None;
     min_user_ratings_total := None;
     types_include := None;
     types_exclude := None;
     require_phone_or_website := false;
     only_open_now := None;
     business_status_in := None |}.

Definition lead_at (nm : string) (address : option str) (pid : string) : lead :=
  {| name := Some (lit nm);
     formatted_address := address;
     latitude := None;
     longitude := None;
     place_id := Some (lit pid);
     types := [];
     rating := None;
     user_ratings_total := None;
     business_status := None;
     phone := None;
     phone_intl := None;
     website := None;
     open_now := None |}.

Definition raw_at (nm address pid : string) : raw_result :=
  {| r_name := Some (lit nm);
     r_formatted_address := Some (lit address);
     r_lat := None;
     r_lng := None;
     r_place_id := Some (lit pid);
     r_types := [];
     r_rating := None;
     r_user_ratings_total := None;
     r_business_status := None;
     r_details := None |}.

(** "Muğla Merkez Yeni Sanayi Sitesi, Türkiye" and the query "Muğla". *)
Definition Mugla : str := lit "Mu" ++ [c_g_breve] ++ lit "la".
Definition mugla_address : str :=
  Mugla ++ lit " Merkez Yeni Sanayi Sitesi, " ++ Turkiye.

(** A provider script of three pages of twenty results each, every page
    with a continuation token. *)
Definition twenty (tag : string) : list raw_result :=
  (λ i : nat, raw_at tag "Atakum, 55200 Samsun" (tag +:+ pretty i)) <$> seq 0 20.

Definition page_of (tag : string) : page :=
  {| status := Some (lit "OK");
     results := twenty tag;
     next_page_token := Some (lit tag) |}.

Definition sixty_results : list page :=
  [page_of "a"; page_of "b"; page_of "c"].

(** A provider that geocodes every query, serves [sixty_results] and fails
    every detail lookup. *)
Definition failing_details : provider :=
  {| geocode_api := λ _, Some (41 # 1, 36 # 1)%Q;
     pages := sixty_results;
     place_details_api := λ _ _, LookupRaised |}.

(** A spreadsheet that has a tab "Sheet1" only, an environment that reaches
    it, and a request that asks for the export. *)
Definition api_without_tab : sheets_api :=
  {| api_titles := inr [Some (lit "Sheet1")];
     api_first_row := inr [];
     api_update_header := λ _, inr tt;
     api_append := λ rows, inr (None, Some (Z.of_nat (length rows))) |}.

Definition sample_env : environment :=
  {| GOOGLE_SHEETS_AUTO_EXPORT := None;
     GOOGLE_SHEETS_SPREADSHEET_ID := Some (lit "sheet-1");
     GOOGLE_SHEETS_SHEET_NAME := None;
     build_service := inr api_without_tab |}.

Definition sample_request (l : Z) : request :=
  {| keyword := lit "bayi";
     location_text := lit "Samsun";
     limit := l;
     include_details := true;
     req_filters := no_filters;
     req_output_format := json;
     csv_columns := None;
     req_dedupe_by := by_place_id;
     export_to_google_sheets := true;
     google_sheets_spreadsheet_id := None;
     google_sheets_sheet_name := None;
     google_sheets_include_raw_json := false |}.

Definition sample_rows (leads : list lead) (keyword : str) (raw_json : bool)
  : list str * list (list str) :=
  ([lit "Kategori"; lit "Bayi Adi"],
   (λ x, [keyword; default (lit "-----") (when_truthy (name x))]) <$> leads).

(** "Cumhuriyet Cd. No:5, Atakum, Türkiye". *)
Definition atakum_address : str :=
  lit "Cumhuriyet Cd. No:5, Atakum, " ++ Turkiye.

(** ** Sheet rows ([google_sheets_writer.py]) *)

(** A literal of the source with Turkish letters: the code points of a UTF-8
    text whose characters take one or two bytes. *)
Fixpoint utf8_from (bytes : list N) : str :=
  match bytes with
  | [] => []
  | b :: bytes' =>
      if (b <? 192)%N then b :: utf8_from bytes'
      else match bytes' with
           | b2 :: bytes'' => ((b - 192) * 64 + (b2 - 128))%N :: utf8_from bytes''
           | [] => [b]
           end
  end.

Definition tr (x : string) : str := utf8_from (lit x).

(** The sentinel of a missing value. *)
Definition sentinel : str := lit "-----".

(** [x or "-----"]. *)
Definition or_sentinel (o : option str) : str := default sentinel (when_truthy o).

Definition valid_mobile_prefixes : list str :=
  lit <$> [ "0505"; "0506"; "0507";
            "0530"; "0531"; "0532"; "0533"; "0534"; "0535"; "0536"; "0537";
            "0538"; "0539";
            "0541"; "0542"; "0543"; "0544"; "0545"; "0546";
            "0549";
            "0551"; "0552"; "0553"; "0554"; "0555" ]%string.

Definition _is_turkish_mobile (phone_clean : str) : bool :=
  if negb (bool_decide (length phone_clean = 11%nat)) then false
  else if negb (startswith (lit "05") phone_clean) then false
  else bool_decide (take 4 phone_clean ∈ valid_mobile_prefixes).

(** The category map of [_pick_category_for_keyword], in the order of the
    dict literal. *)
Definition builtin_category_map : list (str * str) :=
  (λ kv : string * string, (tr kv.1, tr kv.2)) <$>
  [ ("tarım makina", "Tarım Makina"); ("tarim makina", "Tarım Makina");
    ("tarım makine", "Tarım Makina"); ("tarim makine", "Tarım Makina");
    ("makina", "Tarım Makina"); ("makine", "Tarım Makina");
    ("ilaç bayi", "İlaç Bayi"); ("ilac bayi", "İlaç Bayi");
    ("ilaç", "İlaç Bayi"); ("ilac", "İlaç Bayi");
    ("ziraat odası", "Ziraat Odaları"); ("ziraat odasi", "Ziraat Odaları");
    ("ziraat odaları", "Ziraat Odaları");
    ("ziraat odalari", "Ziraat Odaları");
    ("çiftçi kooperatifi", "Çiftçi Kooperatifi");
    ("ciftci kooperatifi", "Çiftçi Kooperatifi");
    ("kooperatif", "Çiftçi Kooperatifi");
    ("kooparatif", "Çiftçi Kooperatifi") ]%string.

Definition default_category : str := tr "Genel Tarım".

(** [d[k] = v] on a dict kept in insertion order: an existing key keeps its
    place, a new key goes last. *)
Fixpoint dict_set (k v : str) (d : list (str * str)) : list (str * str) :=
  match d with
  | [] => [(k, v)]
  | (k', v') :: d' =>
      if decide (k = k') then (k, v) :: d' else (k', v') :: dict_set k v d'
  end.

(** [sorted(d.keys(), key=len, reverse=True)], on the entries: the sort is
    stable, so keys of one length keep the order of the dict. *)
Fixpoint insert_by_len (e : str * str) (sorted : list (str * str))
  : list (str * str) :=
  match sorted with
  | [] => [e]
  | e' :: sorted' =>
      if decide (length e.1 < length e'.1)%nat
      then e' :: insert_by_len e sorted'
      else e :: e' :: sorted'
  end.

Definition sorted_by_len (d : list (str * str)) : list (str * str) :=
  foldr insert_by_len [] d.

Definition sheet_header : list str :=
  tr <$> [ "Kategori"; "Bayi Adı"; "İl"; "İlçe"; "Cep Telefonu";
           "Normal Telefon"; "E-posta" ]%string.

Section Rows.
Context `{UnicodeDB}.

Definition hyphen : char := 45%N.
Definition lparen : char := 40%N.
Definition rparen : char := 41%N.

Definition _normalize_phone (phone : str) : str :=
  let phone :=
    strip (replace (lit "+ 90") [] (replace (lit "+90") [] phone)) in
  List.filter
    (λ c, negb (isspace c || bool_decide (c = hyphen)
                || bool_decide (c = lparen) || bool_decide (c = rparen)))
    phone.

Definition _split_phone (phone phone_intl : option str) : str * str :=
  let '(cep, normal) :=
    match when_truthy phone_intl with
    | Some intl =>
        if _is_turkish_mobile (_normalize_phone intl)
        then (intl, []) else ([], intl)
    | None => ([], [])
    end in
  let '(cep, normal) :=
    match when_truthy phone with
    | Some ph =>
        if nonempty cep then (cep, normal)
        else if _is_turkish_mobile (_normalize_phone ph)
             then (ph, normal) else (cep, ph)
    | None => (cep, normal)
    end in
  (or_sentinel (Some cep), or_sentinel (Some normal)).

(** The user's overrides of the category map: [user_map] holds the entries of
    the JSON object of GOOGLE_SHEETS_KEYWORD_CATEGORY_MAP whose value is a
    string, in order; it is empty when the variable is unset, is not JSON or
    is not an object. *)
Definition category_map (user_map : list (str * str)) : list (str * str) :=
  foldl
    (λ m kv,
       if nonempty (strip kv.1) && nonempty (strip kv.2)
       then dict_set (lower (strip kv.1)) (strip kv.2) m else m)
    builtin_category_map user_map.

Definition _pick_category_for_keyword (user_map : list (str * str))
    (keyword : str) : str :=
  let k := lower (strip keyword) in
  match List.find (λ e : str * str, nonempty e.1 && contains e.1 k)
          (sorted_by_len (category_map user_map)) with
  | Some e => e.2
  | None => default_category
  end.

Definition _extract_email_from_website (website : option str) : str :=
  if negb (truthy website) then sentinel else sentinel.

(** One row of [leads_to_sheet_rows]. *)
Definition sheet_row (category location_text : str) (x : lead) : list str :=
  let '(il, ilce) := _parse_il_ilce (formatted_address x) (Some location_text) in
  let '(cep, normal) := _split_phone (phone x) (phone_intl x) in
  let email := _extract_email_from_website (website x) in
  [category; or_sentinel (name x); or_sentinel il; or_sentinel ilce;
   cep; normal; email].

(** [leads_to_sheet_rows]; [location_text] is [meta["query"]["location_text"]]
    (the empty string when absent). *)
Definition leads_to_sheet_rows (user_map : list (str * str))
    (location_text : str) (leads : list lead) (keyword : str)
    (include_raw_json : bool) : list str * list (list str) :=
  let category := _pick_category_for_keyword user_map keyword in
  (sheet_header, sheet_row category location_text <$> leads).
End Rows.

(** The effects that a run of the loop over the pages [read] must show: the
    first request carries [tok], each later one the token of the page before
    it, and a sleep stands between two requests. *)
Fixpoint trace_of (tok : option str) (read : list page) : list event :=
  match read with
  | [] => []
  | data :: read' =>
      match read' with
      | [] => [Request tok]
      | _ :: _ => Request tok :: Sleep :: trace_of (next_page_token data) read'
      end
  end.

(** A page whose status the loop refuses, after a first page that goes on. *)
Definition denied_page : page :=
  {| status := Some (lit "REQUEST_DENIED"); results := []; next_page_token := None |}.

Definition denied_script : list page := [page_of "a"; denied_page; page_of "c"].

(** A provider whose every detail lookup answers OK with a phone number. *)
Definition phone_details : details :=
  {| formatted_phone_number := Some (lit "0362 111 22 33");
     international_phone_number := Some (lit "+90 362 111 22 33");
     d_website := None;
     opening_hours := None |}.

Definition answering_details : provider :=
  {| geocode_api := λ _, Some (41 # 1, 36 # 1)%Q;
     pages := sixty_results;
     place_details_api := λ _ _, LookupReplied (Some (lit "OK")) phone_details |}.

Definition requiring_contact : filters :=
  {| min_rating := None;
     min_user_ratings_total := None;
     types_include := None;
     types_exclude := None;
     require_phone_or_website := true;
     only_open_now := None;
     business_status_in := None |}.

(** A spreadsheet with the tab "Leads" and a header row, whose update
    request would fail. *)
Definition api_with_header : sheets_api :=
  {| api_titles := inr [Some (lit "Leads")];
     api_first_row := inr [Some (lit "Kategori")];
     api_update_header := λ _, inl (OtherException (lit "quota"));
     api_append := λ rows, inr (Some (lit "Leads!A2"), Some (Z.of_nat (length rows))) |}.

Definition leads_appender (api : sheets_api) : GoogleSheetsAppender :=
  {| spreadsheet_id := lit "sheet-1"; sheet_name := lit "Leads"; _service := api |}.

Definition env_without_sheet : environment :=
  {| GOOGLE_SHEETS_AUTO_EXPORT := None;
     GOOGLE_SHEETS_SPREADSHEET_ID := None;
     GOOGLE_SHEETS_SHEET_NAME := None;
     build_service := inr api_with_header |}.

(** A request for CSV output with one known and one unknown column, that
    also asks for the export. *)
Definition csv_request : request :=
  {| keyword := lit "bayi";
     location_text := lit "Samsun";
     limit := 50;
     include_details := true;
     req_filters := no_filters;
     req_output_format := csv;
     csv_columns := Some [lit "name"; lit "email"];
     req_dedupe_by := by_place_id;
     export_to_google_sheets := true;
     google_sheets_spreadsheet_id := None;
     google_sheets_sheet_name := None;
     google_sheets_include_raw_json := false |}.

(** The order of [sorted(..., key=len, reverse=True)]: no entry comes before
    an entry with a longer key. *)
Definition longer_first (e e' : str * str) : Prop :=
  (length e'.1 ≤ length e.1)%nat.

Fixpoint sorted_desc (l : list (str * str)) : Prop :=
  match l with
  | [] => True
  | e :: l' => Forall (longer_first e) l' ∧ sorted_desc l'
  end.

(** "Cadde 12, Türkiye": a second-to-last segment that holds digits. *)
Definition cadde_address : str := lit "Cadde 12, " ++ Turkiye.

(** The request [q] with other export arguments. *)
Definition with_export (export : bool) (sid sheet : option str)
    (raw_json : bool) (q : request) : request :=
  {| keyword := keyword q;
     location_text := location_text q;
     limit := limit q;
     include_details := include_details q;
     req_filters := req_filters q;
     req_output_format := req_output_format q;
     csv_columns := csv_columns q;
     req_dedupe_by := req_dedupe_by q;
     export_to_google_sheets := export;
     google_sheets_spreadsheet_id := sid;
     google_sheets_sheet_name := sheet;
     google_sheets_include_raw_json := raw_json |}.

(** * Properties *)

(** ** Truthiness and the postal-code search *)

Lemma when_truthy_Some (o : option str) (x : str) :
  when_truthy o = Some x ↔ o = Some x ∧ x ≠ [].
Proof.
  unfold when_truthy. destruct o as [[|c y]|]; simpl; split.
  all: try (intros [? ?]; congruence); try congruence.
  intros [= <-]. split; congruence.
Qed.

Lemma when_truthy_None (o : option str) :
  when_truthy o = None ↔ truthy o = false.
Proof. unfold when_truthy. destruct (truthy o) eqn:E; destruct o; naive_solver. Qed.

Lemma when_truthy_cons (c : N) (x : str) :
  when_truthy (Some (c :: x)) = Some (c :: x).
Proof. reflexivity. Qed.

Section SearchFacts.
Context `{UnicodeDB}.

Lemma five_decimals_length (x : str) :
  five_decimals x = true → (5 ≤ length x)%nat.
Proof.
  destruct x as [|a [|b [|c [|d [|e x]]]]]; simpl; try discriminate.
  intros _. lia.
Qed.

Lemma search_postal_from_length (before : option N) (x pc : str) :
  search_postal_from before x = Some pc → length pc = 5%nat.
Proof.
  revert before. induction x as [|c x IH]; intros before;
    cbn [search_postal_from].
  - discriminate.
  - destruct (boundary before (Some c) && five_decimals (c :: x)
              && boundary ((c :: x) !! 4%nat) ((c :: x) !! 5%nat)) eqn:E.
    + intros [= <-].
      apply andb_prop in E as [E _]. apply andb_prop in E as [_ E].
      apply five_decimals_length in E. simpl in E |- *.
      rewrite length_take. lia.
    + apply IH.
Qed.

Lemma postal_code_truthy (address pc : str) :
  _extract_postal_code_from_address address = Some pc →
  when_truthy (Some pc) = Some pc.
Proof.
  intros E. apply search_postal_from_length in E.
  destruct pc; [discriminate|reflexivity].
Qed.

Lemma postal_code_address_nonempty (address pc : str) :
  _extract_postal_code_from_address address = Some pc → address ≠ [].
Proof. intros E ->. discriminate. Qed.

(** Every province of the table is a non-empty string. *)
Lemma table_value_nonempty (pc P : str) :
  _get_il_from_postal_code pc = Some P → P ≠ [].
Proof.
  unfold _get_il_from_postal_code. case_decide; [|discriminate].
  generalize (take 2 pc). intros k.
  assert (G : Forall (λ kv : str * str, kv.2 ≠ []) POSTAL_CODE_TO_IL).
  { unfold POSTAL_CODE_TO_IL. rewrite Forall_fmap.
    repeat (constructor; [discriminate|]). constructor. }
  induction G as [|[k' v] d Hv _ IH]; simpl; [discriminate|].
  case_decide; [|exact IH]. intros [= <-]. exact Hv.
Qed.

Lemma postal_il_of_found (address pc P : str) :
  _extract_postal_code_from_address address = Some pc →
  _get_il_from_postal_code pc = Some P →
  postal_il_of address = Some P.
Proof.
  intros E G. unfold postal_il_of. rewrite E, (postal_code_truthy _ _ E), G.
  apply when_truthy_Some. split; [done|]. by eapply table_value_nonempty.
Qed.
End SearchFacts.

(** ** C9: the limit clamp *)


(** ** C4: the accumulation loop *)

Lemma append_capped_take (L : Z) (items c : list raw_result) :
  Z.of_nat (length c) ≤ L →
  append_capped L c items = take (Z.to_nat L) (c ++ items).
Proof.
  revert c. induction items as [|item items IH]; intros c Hc; simpl.
  - rewrite app_nil_r, take_ge; [done|lia].
  - case_decide.
    + symmetry. apply take_app_length'. lia.
    + rewrite IH, <- app_assoc; [done|]. rewrite length_app. simpl. lia.
Qed.

Lemma append_capped_length (L : Z) (items c : list raw_result) :
  Z.of_nat (length c) ≤ L →
  Z.of_nat (length (append_capped L c items)) ≤ L.
Proof.
  intros Hc. rewrite append_capped_take, length_take by done. lia.
Qed.

Lemma take_take_app {A} (n : nat) (l k : list A) :
  take n (take n l ++ k) = take n (l ++ k).
Proof.
  destruct (decide (n ≤ length l)%nat).
  - rewrite !take_app_le by (rewrite ?length_take; lia).
    by rewrite take_take, Nat.min_id.
  - by rewrite (take_ge l) by lia.
Qed.

Lemma search_loop_unfold (L : Z) (c : list raw_result) (tok : option str)
    (data : page) (rest : list page) :
  Z.of_nat (length c) < L →
  search_loop L c tok (data :: rest) =
    if negb (is_status "OK" (status data)
             || is_status "ZERO_RESULTS" (status data))
    then ([Request tok], LoopError (status data) data)
    else
      let c' := take (Z.to_nat L) (c ++ results data) in
      if negb (truthy (next_page_token data))
         || bool_decide (L ≤ Z.of_nat (length c'))
         || is_status "ZERO_RESULTS" (status data)
      then ([Request tok], LoopDone c' rest)
      else (Request tok :: Sleep :: (search_loop L c' (next_page_token data) rest).1,
            (search_loop L c' (next_page_token data) rest).2).
Proof.
  intros Hc. cbn [search_loop]. rewrite decide_True by done.
  rewrite append_capped_take by lia.
  repeat case_match; simplify_eq/=; done.
Qed.

Lemma search_loop_full (L : Z) (c : list raw_result) (tok : option str)
    (script : list page) :
  ¬ Z.of_nat (length c) < L →
  search_loop L c tok script = ([], LoopDone c script).
Proof. intros Hc. destruct script; cbn [search_loop]; by rewrite decide_False. Qed.

Lemma requests_cons (e : event) (evs : list event) :
  requests (e :: evs) =
    match e with Request _ => S (requests evs) | Sleep => requests evs end.
Proof. by destruct e. Qed.

(** The loop from any state: what was accumulated is the first [L] items of
    what the pages read hold, and one request was made per page read. *)
Lemma search_loop_spec (L : Z) (script : list page) :
  ∀ (c : list raw_result) (tok : option str),
    Z.of_nat (length c) ≤ L →
    match (search_loop L c tok script).2 with
    | LoopDone c' unread =>
        ∃ read, script = read ++ unread
          ∧ requests (search_loop L c tok script).1 = length read
          ∧ c' = take (Z.to_nat L) (c ++ concat (results <$> read))
    | LoopPending c' =>
        c' = take (Z.to_nat L) (c ++ concat (results <$> script))
        ∧ Z.of_nat (length c') < L
        ∧ requests (search_loop L c tok script).1 = length script
    | LoopError st data =>
        ∃ read unread, script = read ++ data :: unread
          ∧ requests (search_loop L c tok script).1 = S (length read)
    end.
Proof.
  induction script as [|data rest IH]; intros c tok Hc.
  - cbn [search_loop]. case_decide; simpl.
    + rewrite app_nil_r, take_ge by lia. done.
    + exists []. simpl. rewrite app_nil_r, take_ge by lia. done.
  - destruct (decide (Z.of_nat (length c) < L)) as [Hlt|Hge].
    2:{ rewrite search_loop_full by done. simpl. exists []. simpl.
        rewrite app_nil_r, take_ge by lia. done. }
    rewrite search_loop_unfold by done.
    destruct (negb _) eqn:Est; simpl.
    { exists [], rest. done. }
    set (c' := take (Z.to_nat L) (c ++ results data)).
    assert (Hc' : Z.of_nat (length c') ≤ L).
    { unfold c'. rewrite length_take. lia. }
    destruct (negb (truthy _) || _ || _) eqn:Estop; simpl.
    { exists [data]. simpl. rewrite app_nil_r. done. }
    specialize (IH c' (next_page_token data) Hc').
    destruct (search_loop L c' (next_page_token data) rest) as [evs out].
    simpl in *. destruct out as [c'' unread|st d|c''].
    + destruct IH as (read & -> & Hreq & ->). exists (data :: read).
      rewrite !requests_cons, Hreq. simpl. split_and!; [done|done|].
      unfold c'. by rewrite take_take_app, <- app_assoc.
    + destruct IH as (read & unread & -> & Hreq). exists (data :: read), unread.
      rewrite !requests_cons, Hreq. done.
    + destruct IH as (-> & Hlen & Hreq). rewrite !requests_cons, Hreq. simpl.
      split_and!; [|done|done].
      unfold c'. by rewrite take_take_app, <- app_assoc.
Qed.

(** C4. For every limit [L ≥ 1] the accumulator of the paginated search never
    holds more than [L] items: what the loop returns is the first [L] items
    of the pages it read, one request per page read (so it stops at exactly
    [L] even in the middle of a page); and from any state of the loop, a page
    after which [L] is reached, or that carries no continuation token, or
    whose status is ZERO_RESULTS, is the last page requested. *)
Theorem search_loop_never_exceeds_limit (L : Z) (HL : 1 ≤ L) :
  (∀ script : list page,
     match (search_loop L [] None script).2 with
     | LoopDone c unread =>
         Z.of_nat (length c) ≤ L
         ∧ ∃ read, script = read ++ unread
             ∧ requests (search_loop L [] None script).1 = length read
             ∧ c = take (Z.to_nat L) (concat (results <$> read))
             ∧ (L ≤ Z.of_nat (length (concat (results <$> read))) →
                Z.of_nat (length c) = L)
     | LoopPending c =>
         Z.of_nat (length c) < L
         ∧ c = take (Z.to_nat L) (concat (results <$> script))
     | LoopError _ _ => True
     end)
  ∧ (∀ (c : list raw_result) (tok : option str) (data : page)
       (rest : list page),
       Z.of_nat (length c) < L →
       status data = Some (lit "OK") ∨ status data = Some (lit "ZERO_RESULTS") →
       truthy (next_page_token data) = false
       ∨ L ≤ Z.of_nat (length (c ++ results data))
       ∨ status data = Some (lit "ZERO_RESULTS") →
       search_loop L c tok (data :: rest)
       = ([Request tok], LoopDone (take (Z.to_nat L) (c ++ results data)) rest)).
Proof.
  split.
  - intros script.
    pose proof (search_loop_spec L script [] None ltac:(simpl; lia)) as Hs.
    destruct (search_loop L [] None script).2 as [c unread|st d|c].
    + destruct Hs as (read & -> & Hreq & ->). simpl. split.
      * rewrite length_take. lia.
      * exists read. split_and!; [done|done|done|].
        intros Hfull. rewrite length_take. lia.
    + done.
    + destruct Hs as (-> & Hlen & _). done.
  - intros c tok data rest Hc Hst Hstop.
    rewrite search_loop_unfold by done.
    assert (is_status "OK" (status data)
            || is_status "ZERO_RESULTS" (status data) = true) as ->.
    { unfold is_status. destruct Hst as [-> | ->].
      - by rewrite bool_decide_eq_true_2.
      - rewrite (bool_decide_eq_true_2 (_ = Some (lit "ZERO_RESULTS"))) by done.
        apply orb_true_r. }
    simpl.
    assert (negb (truthy (next_page_token data))
            || bool_decide
                 (L ≤ Z.of_nat (length (take (Z.to_nat L) (c ++ results data))))
            || is_status "ZERO_RESULTS" (status data) = true) as ->; [|done].
    destruct Hstop as [Htok | [Hfull | Hzero]].
    + by rewrite Htok.
    + rewrite (bool_decide_eq_true_2 (L ≤ _)).
      * by rewrite orb_true_r.
      * rewrite length_take. lia.
    + unfold is_status. rewrite Hzero.
      rewrite (bool_decide_eq_true_2 (Some _ = Some _)) by done.
      apply orb_true_r.
Qed.

Lemma search_loop_never_exceeds_limit_witness :
  1 ≤ 50
  ∧ match (search_loop 50 [] None sixty_results).2 with
    | LoopDone c unread =>
        Z.of_nat (length c) ≤ 50
        ∧ ∃ read, sixty_results = read ++ unread
            ∧ requests (search_loop 50 [] None sixty_results).1 = length read
            ∧ c = take (Z.to_nat 50) (concat (results <$> read))
            ∧ (50 ≤ Z.of_nat (length (concat (results <$> read))) →
               Z.of_nat (length c) = 50)
    | LoopPending c =>
        Z.of_nat (length c) < 50
        ∧ c = take (Z.to_nat 50) (concat (results <$> sixty_results))
    | LoopError _ _ => True
    end
  ∧ search_loop 50 (twenty "a" ++ twenty "b") (Some (lit "b")) [page_of "c"]
    = ([Request (Some (lit "b"))],
       LoopDone (take (Z.to_nat 50) ((twenty "a" ++ twenty "b") ++ twenty "c")) []).
Proof.
  assert (H50 : 1 ≤ 50) by lia.
  destruct (search_loop_never_exceeds_limit 50 H50) as [Hall Hstop].
  split; [exact H50|]. split; [exact (Hall sixty_results)|].
  apply (Hstop (twenty "a" ++ twenty "b") (Some (lit "b")) (page_of "c") []).
  - vm_compute. reflexivity.
  - left. reflexivity.
  - right. left. vm_compute. discriminate.
Defined.

(** ** C6: deduplication *)

Section Dedupe.
Context `{Countable K} (key : lead → K).
Implicit Types (seen : gset K) (l unique : list lead) (x : lead).

(** The loop of the source computes [keep_first]. *)
Lemma dedupe_loop_keep_first seen unique l :
  dedupe_loop key seen unique l = unique ++ keep_first key seen l.
Proof.
  revert seen unique. induction l as [|x l IH]; intros seen unique; simpl.
  - by rewrite app_nil_r.
  - case_decide; rewrite IH; [done|]. by rewrite <- app_assoc.
Qed.

Lemma keep_first_sublist seen l : keep_first key seen l `sublist_of` l.
Proof.
  revert seen. induction l as [|x l IH]; intros seen; simpl.
  - constructor.
  - case_decide; [apply sublist_cons | apply sublist_skip]; apply IH.
Qed.

Lemma keep_first_fresh seen l x :
  x ∈ keep_first key seen l → key x ∉ seen.
Proof.
  revert seen. induction l as [|y l IH]; intros seen; simpl.
  - by intros ?%not_elem_of_nil.
  - case_decide as Hy; [apply IH|].
    intros [->|Hx%IH]%elem_of_cons; [done|]. set_solver.
Qed.

Lemma keep_first_NoDup seen l : NoDup (key <$> keep_first key seen l).
Proof.
  revert seen. induction l as [|y l IH]; intros seen; simpl.
  - constructor.
  - case_decide as Hy; [apply IH|]. rewrite fmap_cons. constructor; [|apply IH].
    intros (z & Hz & Hin%keep_first_fresh)%list_elem_of_fmap. set_solver.
Qed.

(** The first lead of every key that is not yet seen is the lead kept for
    that key. *)
Lemma keep_first_find seen l (k : K) :
  k ∉ seen →
  snd <$> list_find (λ x, key x = k) (keep_first key seen l)
  = snd <$> list_find (λ x, key x = k) l.
Proof.
  revert seen. induction l as [|y l IH]; intros seen Hk; [done|].
  cbn [keep_first list_find]. case_decide as Hy.
  - rewrite decide_False by (intros <-; done).
    rewrite IH by done. by destruct (list_find _ l) as [[??]|].
  - cbn [list_find]. case_decide as Hyk; [done|].
    rewrite <- !option_fmap_compose.
    assert (Hk' : k ∉ {[key y]} ∪ seen).
    { rewrite elem_of_union, elem_of_singleton. intros [->|?]; done. }
    specialize (IH _ Hk').
    destruct (list_find _ (keep_first _ _ l)) as [[??]|],
      (list_find _ l) as [[??]|]; simplify_eq/=; done.
Qed.

Lemma keep_first_idem seen l :
  keep_first key seen (keep_first key seen l) = keep_first key seen l.
Proof.
  revert seen. induction l as [|y l IH]; intros seen; simpl; [done|].
  case_decide as Hy; [apply IH|]. simpl. rewrite decide_False by done.
  by rewrite IH.
Qed.
End Dedupe.

Lemma filter_sublist {A} (f : A → bool) (l : list A) :
  List.filter f l `sublist_of` l.
Proof.
  induction l as [|x l IH]; simpl; [constructor|].
  destruct (f x); by constructor.
Qed.

Lemma filter_all {A} (f : A → bool) (l : list A) :
  Forall (λ x, f x = true) l → List.filter f l = l.
Proof. induction 1 as [|x l Hx _ IH]; simpl; [done|]. by rewrite Hx, IH. Qed.

Lemma filter_satisfies {A} (f : A → bool) (l : list A) :
  Forall (λ x, f x = true) (List.filter f l).
Proof.
  induction l as [|x l IH]; simpl; [constructor|].
  destruct (f x) eqn:E; [by constructor|done].
Qed.

Section DedupeFacade.
Context `{UnicodeDB}.

Lemma dedupe_keep_first (mode : dedupe_by) (l : list lead) :
  dedupe mode l = keep_first (key_of mode) ∅ l.
Proof. unfold dedupe. by rewrite dedupe_loop_keep_first. Qed.

Lemma dedupe_sublist (mode : dedupe_by) (l : list lead) :
  dedupe mode l `sublist_of` l.
Proof. rewrite dedupe_keep_first. apply keep_first_sublist. Qed.

End DedupeFacade.

(** C6. Deduplication keeps, for every key (the [place_id], or the
    normalized name and address), the first lead of the input that has this
    key, and nothing else with this key: the output is a subsequence of the
    input (so the input order is kept), its keys are pairwise distinct, and
    the first lead with a given key is the same in the output and in the
    input.  The filter-and-dedupe pipeline applied to its own output returns
    this output. *)
Theorem dedupe_first_occurrence_idempotent `{UnicodeDB} (mode : dedupe_by)
    (location_il : option str) (f : filters) (l : list lead) :
  dedupe mode l `sublist_of` l
  ∧ NoDup (key_of mode <$> dedupe mode l)
  ∧ (∀ k, snd <$> list_find (λ x, key_of mode x = k) (dedupe mode l)
          = snd <$> list_find (λ x, key_of mode x = k) l)
  ∧ dedupe mode (dedupe mode l) = dedupe mode l
  ∧ filter_pipeline location_il f mode (filter_pipeline location_il f mode l)
    = filter_pipeline location_il f mode l.
Proof.
  split_and!.
  - apply dedupe_sublist.
  - rewrite dedupe_keep_first. apply keep_first_NoDup.
  - intros k. rewrite dedupe_keep_first. apply keep_first_find. set_solver.
  - rewrite !dedupe_keep_first. apply keep_first_idem.
  - unfold filter_pipeline.
    set (m := List.filter (pass_filters location_il f) l).
    rewrite (filter_all _ (dedupe mode m)).
    + rewrite !dedupe_keep_first. apply keep_first_idem.
    + apply Forall_forall. intros x Hx.
      pose proof (filter_satisfies (pass_filters location_il f) l) as Hall.
      rewrite Forall_forall in Hall. apply Hall.
      eapply elem_of_sublist; [exact Hx|apply dedupe_sublist].
Qed.

(** ** C5: enrichment *)

Lemma enrich_failed (place_details : str → lookup) (item : raw_result) :
  (∀ pid, r_place_id item = Some pid → lookup_fails (place_details pid)) →
  enrich place_details item = item.
Proof.
  intros Hfail. unfold enrich.
  destruct (when_truthy (r_place_id item)) as [pid|] eqn:E; [|done].
  apply when_truthy_Some in E as [E _]. specialize (Hfail pid E).
  destruct (place_details pid) as [|st result]; [done|].
  simpl in Hfail. unfold is_status. by rewrite bool_decide_eq_false_2.
Qed.

Lemma enrich_all_length (p : provider) (collected : list raw_result) :
  length (enrich_all p collected) = length collected.
Proof. apply length_imap. Qed.

(** C5. Whatever the detail lookups do, a search whose pages were collected
    returns all the collected leads, in order: a failed lookup (an exception,
    or a status that is not OK) leaves its item exactly as collected, without
    a [details] block added, and when every lookup fails the batch is the
    collected list itself; the search answers success, never an error. *)
Theorem enrichment_failures_are_swallowed `{UnicodeDB} (p : provider)
    (location_text : str) (L : Z) (include_details : bool) (location : Q * Q)
    (collected : list raw_result) (unread : list page) :
  geocode p location_text = Some location →
  (search_loop L [] None (pages p)).2 = LoopDone collected unread →
  ∃ leads_raw,
    search_leads p location_text L include_details = SearchOk leads_raw location
    ∧ length leads_raw = length collected
    ∧ (∀ i item,
         collected !! i = Some item →
         (∀ pid, r_place_id item = Some pid →
                 lookup_fails (place_details_api p i pid)) →
         leads_raw !! i = Some item)
    ∧ ((∀ i pid, lookup_fails (place_details_api p i pid)) →
       leads_raw = collected).
Proof.
  intros Hgeo Hloop. unfold search_leads. rewrite Hgeo, Hloop.
  eexists. split; [reflexivity|].
  destruct (include_details && bool_decide (collected ≠ [])).
  - split_and!.
    + apply enrich_all_length.
    + intros i item Hi Hfail. unfold enrich_all.
      rewrite list_lookup_imap, Hi. simpl. by rewrite enrich_failed.
    + intros Hfail. apply list_eq. intros i. unfold enrich_all.
      rewrite list_lookup_imap. destruct (collected !! i) as [item|]; [|done].
      simpl. rewrite enrich_failed; [done|]. intros pid _. apply Hfail.
  - done.
Qed.

Lemma enrichment_failures_are_swallowed_witness :
  @geocode Latin.db failing_details (lit "Samsun") = Some (41 # 1, 36 # 1)%Q
  ∧ (search_loop 50 [] None (pages failing_details)).2
    = LoopDone (take 50 (concat (results <$> sixty_results))) []
  ∧ @search_leads Latin.db failing_details (lit "Samsun") 50 true
    = SearchOk (take 50 (concat (results <$> sixty_results))) (41 # 1, 36 # 1)%Q.
Proof.
  assert (Hgeo : @geocode Latin.db failing_details (lit "Samsun")
                 = Some (41 # 1, 36 # 1)%Q) by reflexivity.
  assert (Hloop : (search_loop 50 [] None (pages failing_details)).2
                  = LoopDone (take 50 (concat (results <$> sixty_results))) [])
    by (vm_compute; reflexivity).
  split; [exact Hgeo|]. split; [exact Hloop|].
  destruct (@enrichment_failures_are_swallowed Latin.db failing_details
              (lit "Samsun") 50 true _ _ _ Hgeo Hloop)
    as (leads_raw & -> & _ & _ & Hall).
  f_equal. apply Hall. intros i pid. exact I.
Defined.

(** ** C9: the clamped limit *)

Section Clamp.
Context `{UnicodeDB}.
Variable leads_to_sheet_rows :
  list lead → str → bool → list str * list (list str).



End Clamp.



(** ** C10 and C2: the geographic gate *)

(** C10. A lead whose [formatted_address] is missing or empty is never
    rejected by the geographic gate, whatever the declared province; its fate
    is decided by the attribute filters alone. *)
Theorem missing_address_bypasses_geo_gate `{UnicodeDB}
    (location_il : option str) (f : filters) (item : lead) :
  truthy (formatted_address item) = false →
  geo_gate location_il item = true
  ∧ pass_filters location_il f item = attribute_filters f item.
Proof.
  intros Haddr. apply when_truthy_None in Haddr.
  assert (G : geo_gate location_il item = true).
  { unfold geo_gate. rewrite Haddr. by destruct (when_truthy location_il). }
  split; [exact G|]. unfold pass_filters. by rewrite G.
Qed.

Lemma missing_address_bypasses_geo_gate_witness :
  truthy (formatted_address (lead_at "Bayi" None "p1")) = false
  ∧ @geo_gate Latin.db (Some (lit "Malatya")) (lead_at "Bayi" None "p1") = true
  ∧ @pass_filters Latin.db (Some (lit "Malatya")) no_filters
      (lead_at "Bayi" None "p1")
    = @attribute_filters Latin.db no_filters (lead_at "Bayi" None "p1").
Proof.
  assert (Hnone : truthy (formatted_address (lead_at "Bayi" None "p1")) = false)
    by reflexivity.
  split; [exact Hnone|].
  exact (@missing_address_bypasses_geo_gate Latin.db (Some (lit "Malatya"))
           no_filters (lead_at "Bayi" None "p1") Hnone).
Defined.

(** C2. When the query declares a province and the address of a lead holds a
    5-digit postal code, the gate rejects the lead if the prefix maps to no
    province, and if it maps to a province whose normal form differs from the
    normal form of the declared province. *)
Theorem postal_mismatch_is_rejected `{UnicodeDB} (location_text loc : str)
    (address postal_code : str) (f : filters) (item : lead) :
  when_truthy (declared_il location_text) = Some loc →
  formatted_address item = Some address →
  _extract_postal_code_from_address address = Some postal_code →
  (_get_il_from_postal_code postal_code = None
   ∨ ∃ P, _get_il_from_postal_code postal_code = Some P
          ∧ _normalize_il_name P ≠ _normalize_il_name loc) →
  geo_gate (declared_il location_text) item = false
  ∧ pass_filters (declared_il location_text) f item = false.
Proof.
  intros Hloc Haddr Hpc Hil.
  assert (G : geo_gate (declared_il location_text) item = false).
  { unfold geo_gate. rewrite Hloc, Haddr.
    pose proof (postal_code_address_nonempty _ _ Hpc) as Hne.
    destruct address as [|a address]; [done|]. rewrite when_truthy_cons.
    rewrite Hpc, (postal_code_truthy _ _ Hpc).
    destruct Hil as [-> | (P & -> & Hne')]; [done|].
    destruct (when_truthy (Some P)) as [P'|] eqn:EP; [|done].
    apply when_truthy_Some in EP as [[= <-] _].
    by rewrite decide_True by congruence. }
  split; [exact G|]. unfold pass_filters. by rewrite G.
Qed.

Lemma postal_mismatch_is_rejected_witness :
  when_truthy (@declared_il Latin.db (lit "Samsun")) = Some (lit "Samsun")
  ∧ formatted_address
      (lead_at "Bayi" (Some (lit "Merkez, 44100 Malatya")) "p1")
    = Some (lit "Merkez, 44100 Malatya")
  ∧ @_extract_postal_code_from_address Latin.db (lit "Merkez, 44100 Malatya")
    = Some (lit "44100")
  ∧ (∃ P, _get_il_from_postal_code (lit "44100") = Some P
          ∧ @_normalize_il_name Latin.db P
            ≠ @_normalize_il_name Latin.db (lit "Samsun"))
  ∧ @geo_gate Latin.db (@declared_il Latin.db (lit "Samsun"))
      (lead_at "Bayi" (Some (lit "Merkez, 44100 Malatya")) "p1") = false
  ∧ @pass_filters Latin.db (@declared_il Latin.db (lit "Samsun")) no_filters
      (lead_at "Bayi" (Some (lit "Merkez, 44100 Malatya")) "p1") = false.
Proof.
  assert (H1 : when_truthy (@declared_il Latin.db (lit "Samsun"))
               = Some (lit "Samsun")) by (vm_compute; reflexivity).
  assert (H2 : formatted_address
                 (lead_at "Bayi" (Some (lit "Merkez, 44100 Malatya")) "p1")
               = Some (lit "Merkez, 44100 Malatya")) by reflexivity.
  assert (H3 : @_extract_postal_code_from_address Latin.db
                 (lit "Merkez, 44100 Malatya") = Some (lit "44100"))
    by (vm_compute; reflexivity).
  assert (H4 : ∃ P, _get_il_from_postal_code (lit "44100") = Some P
                    ∧ @_normalize_il_name Latin.db P
                      ≠ @_normalize_il_name Latin.db (lit "Samsun")).
  { exists (lit "malatya"). split; [vm_compute; reflexivity|].
    vm_compute. discriminate. }
  split_and!; [exact H1|exact H2|exact H3|exact H4|..];
    apply (@postal_mismatch_is_rejected Latin.db (lit "Samsun") (lit "Samsun")
             (lit "Merkez, 44100 Malatya") (lit "44100") no_filters
             (lead_at "Bayi" (Some (lit "Merkez, 44100 Malatya")) "p1")
             H1 H2 H3 (or_intror H4)).
Defined.

(** ** C1: the province of an address that carries a postal code *)

Lemma split_on_nonempty (sep : N) (x : str) : split_on sep x ≠ [].
Proof.
  destruct x as [|c x]; simpl; [done|].
  case_bool_decide; [done|]. by destruct (split_on sep x).
Qed.

Section Province.
Context `{UnicodeDB}.

Lemma parts_nonempty (address : str) :
  ∃ p ps, strip <$> split_on comma address = p :: ps.
Proof.
  pose proof (split_on_nonempty comma address) as Hne.
  destruct (split_on comma address) as [|p ps]; [done|].
  by exists (strip p), (strip <$> ps).
Qed.

Lemma address_only_postal (address pc P : str) :
  _extract_postal_code_from_address address = Some pc →
  _get_il_from_postal_code pc = Some P →
  _parse_il_from_address_only (Some address) = Some P.
Proof.
  intros Hpc HP. unfold _parse_il_from_address_only.
  pose proof (postal_code_address_nonempty _ _ Hpc) as Hne.
  destruct address as [|a address]; [done|]. rewrite when_truthy_cons.
  by rewrite (postal_il_of_found _ _ _ Hpc HP).
Qed.

(** The declared province as [_parse_il_ilce] computes it. *)
Lemma location_il_declared (location_text : str) :
  match when_truthy (Some location_text) with
  | Some t => _extract_il_from_location_text t
  | None => None
  end = declared_il location_text.
Proof. by destruct location_text. Qed.
End Province.

(** C1, amended.  For an address whose first standalone 5-digit token maps
    through the table to province [P]: the address-only resolver returns [P],
    whatever else the address says; [_parse_il_ilce] returns the declared
    province, and no district, when the query declares a province whose normal
    form is not that of [P], and a province whose normal form is that of [P]
    when the declared province has this normal form. *)
Theorem postal_province_resolution `{UnicodeDB} (address pc P : str) :
  _extract_postal_code_from_address address = Some pc →
  _get_il_from_postal_code pc = Some P →
  _parse_il_from_address_only (Some address) = Some P
  ∧ ∀ location_text loc : str,
      when_truthy (declared_il location_text) = Some loc →
      if decide (_normalize_il_name loc = _normalize_il_name P)
      then ∃ il, (_parse_il_ilce (Some address) (Some location_text)).1 = Some il
                 ∧ _normalize_il_name il = _normalize_il_name P
      else _parse_il_ilce (Some address) (Some location_text) = (Some loc, None).
Proof.
  intros Hpc HP. split; [by eapply address_only_postal|].
  intros location_text loc Hloc.
  pose proof (proj1 (when_truthy_Some _ _) Hloc) as [Hdecl _].
  unfold _parse_il_ilce. rewrite location_il_declared, Hloc.
  pose proof (postal_code_address_nonempty _ _ Hpc) as Hne.
  destruct address as [|a address]; [done|]. rewrite when_truthy_cons.
  rewrite (postal_il_of_found _ _ _ Hpc HP).
  destruct (parts_nonempty (a :: address)) as (p & ps & ->).
  destruct (parse_candidates (p :: ps)) as [parsed_il parsed_ilce].
  case_decide as Hnorm.
  - rewrite decide_False by (intros Hneq; apply Hneq; exact Hnorm).
    destruct (when_truthy parsed_il) as [il|] eqn:Eil.
    + apply when_truthy_Some in Eil as [-> _]. case_decide as Hil.
      * exists loc. by rewrite Hdecl.
      * exists il. split; [done|]. congruence.
    + exists loc. by rewrite Hdecl.
  - rewrite decide_True by done. rewrite Hdecl. simpl.
    by rewrite andb_false_r.
Qed.

Lemma postal_province_resolution_witness :
  @_extract_postal_code_from_address Latin.db (lit "Atakum, 55200 Samsun")
  = Some (lit "55200")
  ∧ _get_il_from_postal_code (lit "55200") = Some (lit "samsun")
  ∧ @_parse_il_from_address_only Latin.db (Some (lit "Atakum, 55200 Samsun"))
    = Some (lit "samsun")
  ∧ @_parse_il_ilce Latin.db (Some (lit "Atakum, 55200 Samsun"))
      (Some (lit "Malatya"))
    = (Some (lit "Malatya"), None).
Proof.
  assert (H1 : @_extract_postal_code_from_address Latin.db
                 (lit "Atakum, 55200 Samsun") = Some (lit "55200"))
    by (vm_compute; reflexivity).
  assert (H2 : _get_il_from_postal_code (lit "55200") = Some (lit "samsun"))
    by (vm_compute; reflexivity).
  destruct (@postal_province_resolution Latin.db _ _ _ H1 H2) as [Honly Hres].
  split_and!; [exact H1|exact H2|exact Honly|].
  assert (H3 : when_truthy (@declared_il Latin.db (lit "Malatya"))
               = Some (lit "Malatya")) by (vm_compute; reflexivity).
  specialize (Hres (lit "Malatya") (lit "Malatya") H3).
  destruct (decide (@_normalize_il_name Latin.db (lit "Malatya")
                    = @_normalize_il_name Latin.db (lit "samsun")))
    as [Heq|Hne]; [|exact Hres].
  vm_compute in Heq. discriminate Heq.
Defined.

(** C1 as stated fails: for the address "Atakum, 55200 Samsun", whose postal
    prefix 55 maps to "samsun", and the declared location "Malatya",
    [_parse_il_ilce] resolves "Malatya". *)
Lemma postal_province_overridden_by_location :
  @_extract_postal_code_from_address Latin.db (lit "Atakum, 55200 Samsun")
  = Some (lit "55200")
  ∧ _get_il_from_postal_code (lit "55200") = Some (lit "samsun")
  ∧ (@_parse_il_ilce Latin.db (Some (lit "Atakum, 55200 Samsun"))
       (Some (lit "Malatya"))).1
    ≠ Some (lit "samsun").
Proof. split_and!; [vm_compute; reflexivity..|vm_compute; discriminate]. Qed.

(** ** C8: a failed export *)

Section ExportFailure.
Context `{UnicodeDB}.
Variable leads_to_sheet_rows :
  list lead → str → bool → list str * list (list str).

(** The export raises the missing-tab error when the spreadsheet is
    reachable and has no tab named "Leads". *)
Lemma export_missing_tab (env : environment) (keyword : str)
    (sid_arg sheet_arg : option str) (raw_json : bool) (unique : list lead)
    (sid : str) (api : sheets_api) (titles : list (option str)) :
  when_truthy (if truthy sid_arg then sid_arg
               else GOOGLE_SHEETS_SPREADSHEET_ID env) = Some sid →
  build_service env = inr api →
  api_titles api = inr titles →
  Some (lit "Leads") ∉ titles →
  export leads_to_sheet_rows env keyword sid_arg sheet_arg raw_json unique
  = inl (RuntimeError (missing_sheet_message (lit "Leads"))).
Proof.
  intros Hsid Hbuild Htitles Hmissing. unfold export, new_appender.
  rewrite Hsid, Hbuild. simpl.
  destruct (leads_to_sheet_rows unique keyword raw_json) as [header rows].
  unfold ensure_header, _check_sheet_exists. simpl. rewrite Htitles. simpl.
  by rewrite bool_decide_eq_false_2.
Qed.
End ExportFailure.

(** C8. When the search succeeds and the export is attempted, any exception
    of the export step is caught: the response is the JSON envelope with the
    full lead list and the annotation [google_sheets] holding [ok = false]
    and the message of the exception.  This is what happens, in particular,
    when the spreadsheet has no tab named "Leads". *)
Theorem export_failure_is_annotation `{UnicodeDB}
    (leads_to_sheet_rows : list lead → str → bool → list str * list (list str))
    (p : provider) (env : environment) (q : request)
    (leads_raw : list raw_result) (location : Q * Q) :
  search_leads p (location_text q) (clamp_limit (limit q)) (include_details q)
  = SearchOk leads_raw location →
  req_output_format q = json →
  export_to_google_sheets q || auto_export_on env = true →
  let unique :=
    filter_pipeline (declared_il (location_text q)) (req_filters q)
      (req_dedupe_by q) (to_lead <$> leads_raw) in
  (∀ e : exn,
     export leads_to_sheet_rows env (keyword q) (google_sheets_spreadsheet_id q)
       (google_sheets_sheet_name q) (google_sheets_include_raw_json q) unique
     = inl e →
     find_business_leads leads_to_sheet_rows p env q
     = JsonEnvelope unique (length unique)
         (Some (SheetsFailed (auto_export_on env) (exn_str e))))
  ∧ (∀ (sid : str) (api : sheets_api) (titles : list (option str)),
       when_truthy (if truthy (google_sheets_spreadsheet_id q)
                    then google_sheets_spreadsheet_id q
                    else GOOGLE_SHEETS_SPREADSHEET_ID env) = Some sid →
       build_service env = inr api →
       api_titles api = inr titles →
       Some (lit "Leads") ∉ titles →
       find_business_leads leads_to_sheet_rows p env q
       = JsonEnvelope unique (length unique)
           (Some (SheetsFailed (auto_export_on env)
                    (missing_sheet_message (lit "Leads"))))).
Proof.
  intros Hsearch Hjson Hexport unique.
  assert (Hany : ∀ e : exn,
    export leads_to_sheet_rows env (keyword q) (google_sheets_spreadsheet_id q)
      (google_sheets_sheet_name q) (google_sheets_include_raw_json q) unique
    = inl e →
    find_business_leads leads_to_sheet_rows p env q
    = JsonEnvelope unique (length unique)
        (Some (SheetsFailed (auto_export_on env) (exn_str e)))).
  { intros e He. unfold find_business_leads.
    rewrite Hsearch, Hjson, Hexport. fold unique. by rewrite He. }
  split; [exact Hany|].
  intros sid api titles Hsid Hbuild Htitles Hmissing.
  apply (Hany (RuntimeError (missing_sheet_message (lit "Leads")))).
  by eapply export_missing_tab.
Qed.

Lemma export_failure_is_annotation_witness :
  @search_leads Latin.db failing_details (location_text (sample_request 50))
    (clamp_limit (limit (sample_request 50)))
    (include_details (sample_request 50))
  = SearchOk (take 50 (concat (results <$> sixty_results))) (41 # 1, 36 # 1)%Q
  ∧ req_output_format (sample_request 50) = json
  ∧ export_to_google_sheets (sample_request 50)
    || @auto_export_on Latin.db sample_env = true
  ∧ @find_business_leads Latin.db sample_rows failing_details sample_env
      (sample_request 50)
    = JsonEnvelope
        (@filter_pipeline Latin.db (@declared_il Latin.db (lit "Samsun"))
           no_filters by_place_id
           (to_lead <$> take 50 (concat (results <$> sixty_results))))
        (length
           (@filter_pipeline Latin.db (@declared_il Latin.db (lit "Samsun"))
              no_filters by_place_id
              (to_lead <$> take 50 (concat (results <$> sixty_results)))))
        (Some (SheetsFailed false (missing_sheet_message (lit "Leads")))).
Proof.
  assert (H1 : @search_leads Latin.db failing_details
                 (location_text (sample_request 50))
                 (clamp_limit (limit (sample_request 50)))
                 (include_details (sample_request 50))
               = SearchOk (take 50 (concat (results <$> sixty_results)))
                   (41 # 1, 36 # 1)%Q) by (vm_compute; reflexivity).
  assert (H2 : req_output_format (sample_request 50) = json) by reflexivity.
  assert (H3 : export_to_google_sheets (sample_request 50)
               || @auto_export_on Latin.db sample_env = true) by reflexivity.
  split_and!; [exact H1|exact H2|exact H3|].
  apply (proj2 (@export_failure_is_annotation Latin.db sample_rows
                  failing_details sample_env (sample_request 50) _ _ H1 H2 H3)
           (lit "sheet-1") api_without_tab [Some (lit "Sheet1")]).
  - reflexivity.
  - reflexivity.
  - reflexivity.
  - intros Hin. apply list_elem_of_singleton in Hin. discriminate Hin.
Defined.

(** ** C3: the substring fallback of the gate *)

Section Fallback.
Context `{UnicodeDB}.

(** With no postal code and no province parsed from the address, the gate
    looks for the normal form of the declared province in the lowercased
    address. *)
Lemma geo_gate_fallback (location_il : option str) (loc address : str)
    (item : lead) :
  when_truthy location_il = Some loc →
  when_truthy (formatted_address item) = Some address →
  _extract_postal_code_from_address address = None →
  truthy (_parse_il_from_address_only (Some address)) = false →
  geo_gate location_il item
  = contains (_normalize_il_name loc) (lower address).
Proof.
  intros Hloc Haddr Hpc Hparse. unfold geo_gate.
  rewrite Hloc, Haddr, Hpc. simpl.
  apply when_truthy_None in Hparse. rewrite Hparse.
  by destruct (contains _ _).
Qed.
End Fallback.

(** C3, at the failing input.  The lead's address is
    "Muğla Merkez Yeni Sanayi Sitesi, Türkiye" and the query's location is
    "Muğla": the address has no postal code, no province is parsed from it,
    the declared province occurs in it (literally, and after both sides are
    normalized), and the gate rejects the lead, because it searches the
    folded "mugla" in the address that was only lowercased. *)
Theorem fallback_misses_province_with_diacritics :
  @_extract_postal_code_from_address Latin.db mugla_address = None
  ∧ @_parse_il_from_address_only Latin.db (Some mugla_address) = None
  ∧ @declared_il Latin.db Mugla = Some Mugla
  ∧ contains Mugla mugla_address = true
  ∧ contains (@_normalize_il_name Latin.db Mugla)
      (@_normalize_il_name Latin.db mugla_address) = true
  ∧ contains (@_normalize_il_name Latin.db Mugla)
      (@lower Latin.db mugla_address) = false
  ∧ @geo_gate Latin.db (@declared_il Latin.db Mugla)
      (lead_at "Bayi" (Some mugla_address) "p1") = false.
Proof. split_and!; vm_compute; reflexivity. Qed.

(** ** C7: the second-to-last segment as district *)

Lemma startswith_app (p x : str) :
  startswith p x = true → ∃ rest, x = p ++ rest.
Proof.
  revert x. induction p as [|a p IH]; intros x; simpl.
  - intros _. by exists x.
  - destruct x as [|b x]; [done|].
    intros [Hab Hp]%andb_prop. apply bool_decide_eq_true in Hab as ->.
    destruct (IH x Hp) as [rest ->]. by exists rest.
Qed.

Lemma contains_char (c : N) (x : str) : contains [c] x = true ↔ c ∈ x.
Proof.
  induction x as [|d x IH]; simpl.
  - split; [done|]. by intros ?%not_elem_of_nil.
  - rewrite elem_of_cons, <- IH, andb_true_r, orb_true_iff, bool_decide_eq_true.
    split; (intros [?|?]; [left|right]); done.
Qed.

Lemma replace_from_keeps (c : N) (old new : str) :
  c ∉ old → old ≠ [] →
  ∀ (x : str) (skip : nat) (pre rest : str),
    x = pre ++ rest → length pre = skip → (∀ d, d ∈ pre → d ∈ old) →
    c ∈ x → c ∈ replace_from old new skip x.
Proof.
  intros Hc Hold. induction x as [|d x IH]; intros skip pre rest Hx Hlen Hpre Hin.
  - by apply not_elem_of_nil in Hin.
  - cbn [replace_from]. destruct skip as [|k].
    + destruct (startswith old (d :: x)) eqn:Es.
      * apply startswith_app in Es as [rest' Es].
        destruct old as [|o old']; [done|]. simplify_eq/=.
        apply elem_of_app. right.
        apply (IH _ old' rest'); [done|done| |].
        -- intros e He. by apply list_elem_of_further.
        -- apply elem_of_cons in Hin as [->|Hin]; [|done].
           exfalso. apply Hc. apply list_elem_of_here.
      * apply elem_of_cons in Hin as [->|Hin]; [apply list_elem_of_here|].
        apply list_elem_of_further.
        apply (IH 0%nat [] x); [done|done| |done].
        by intros e ?%not_elem_of_nil.
    + destruct pre as [|e pre']; [done|]. simplify_eq/=.
      apply (IH _ pre' rest); [done|done| |].
      * intros e' He'. apply Hpre. by apply list_elem_of_further.
      * apply elem_of_cons in Hin as [->|Hin]; [|done].
        exfalso. apply Hc, Hpre, list_elem_of_here.
Qed.

Lemma replace_keeps (c : N) (old new x : str) :
  c ∉ old → old ≠ [] → c ∈ x → c ∈ replace old new x.
Proof.
  intros Hc Hold Hin. unfold replace.
  apply (replace_from_keeps c old new Hc Hold x 0%nat [] x); try done.
  by intros d ?%not_elem_of_nil.
Qed.

Section Kept.
Context `{UnicodeDB}.
Variable c : N.
Hypothesis c_not_space : isspace c = false.
Hypothesis c_not_decimal : isdecimal c = false.

Lemma lstrip_keeps (x : str) : c ∈ x → c ∈ lstrip x.
Proof.
  induction x as [|d x IH]; simpl; [done|].
  destruct (isspace d) eqn:Ed; [|done].
  intros [->|Hin]%elem_of_cons; [congruence|by apply IH].
Qed.

Lemma strip_keeps (x : str) : c ∈ x → c ∈ strip x.
Proof.
  intros Hin. unfold strip, rstrip.
  apply elem_of_reverse, lstrip_keeps, elem_of_reverse. by apply lstrip_keeps.
Qed.

Lemma five_decimals_split (x : str) :
  five_decimals x = true →
  ∃ d pre rest, x = d :: pre ++ rest ∧ length pre = 4%nat
    ∧ isdecimal d = true ∧ Forall (λ e, isdecimal e = true) pre.
Proof.
  destruct x as [|d [|e1 [|e2 [|e3 [|e4 rest]]]]]; simpl; try done.
  intros Hd. repeat (apply andb_prop in Hd as [Hd ?]).
  exists d, [e1; e2; e3; e4], rest. split_and!; try done.
  by repeat constructor.
Qed.

Lemma sub_postal_from_keeps :
  ∀ (x : str) (skip : nat) (ws : bool) (pre rest : str),
    x = pre ++ rest → length pre = skip →
    Forall (λ e, isdecimal e = true) pre →
    c ∈ x → c ∈ sub_postal_from skip ws x.
Proof.
  induction x as [|d x IH]; intros skip ws pre rest Hx Hlen Hpre Hin.
  - by apply not_elem_of_nil in Hin.
  - cbn [sub_postal_from]. destruct skip as [|k].
    + destruct (ws && isspace d) eqn:Ews.
      { apply andb_prop in Ews as [_ Ed].
        apply elem_of_cons in Hin as [->|Hin]; [congruence|].
        by apply (IH 0%nat true [] x). }
      destruct (five_decimals (d :: x)) eqn:E5.
      * apply five_decimals_split in E5 as (d' & pre' & rest' & E & L4 & Hd & Hall).
        simplify_eq/=.
        apply elem_of_cons in Hin as [->|Hin]; [congruence|].
        by apply (IH 4%nat true pre' rest').
      * apply elem_of_cons in Hin as [->|Hin]; [apply list_elem_of_here|].
        apply list_elem_of_further. by apply (IH 0%nat false [] x).
    + destruct pre as [|e pre']; [done|]. simplify_eq/=.
      apply Forall_cons in Hpre as [He Hpre].
      apply elem_of_cons in Hin as [->|Hin]; [congruence|].
      by apply (IH _ true pre' rest).
Qed.

Lemma clean_last_part_keeps (parts : list str) :
  c ∉ Turkiye → c ∉ lit "turkey" →
  c ∈ last_part parts → c ∈ clean_last_part parts.
Proof.
  intros HT Ht Hin. unfold clean_last_part.
  apply strip_keeps. unfold sub_postal.
  apply (sub_postal_from_keeps _ 0%nat false [] _ eq_refl eq_refl);
    [constructor|].
  apply strip_keeps, replace_keeps; [done|done|].
  apply replace_keeps; [done|done|]. by apply strip_keeps.
Qed.
End Kept.

Section District.
Context `{UnicodeDB}.

Lemma no_decimal_no_postal (x : str) :
  Forall (λ c, isdecimal c = false) x → has_five_decimals x = false.
Proof.
  induction 1 as [|c x Hc _ IH]; [done|].
  cbn [has_five_decimals]. rewrite IH, orb_false_r.
  destruct x as [|b [|c' [|d [|e x]]]]; simpl; try done. by rewrite Hc.
Qed.

Lemma ilce_valid_without_postal (ilce il : option str) (address : str) :
  postal_il_of address = None →
  _is_ilce_valid_for_il ilce il (Some address) = true.
Proof.
  intros Hpost. unfold _is_ilce_valid_for_il.
  destruct (negb (truthy ilce) || negb (truthy il)); [done|].
  destruct (when_truthy (Some address)) as [a|] eqn:Ea; [|done].
  apply when_truthy_Some in Ea as [[= <-] _].
  destruct il; [|done]. by rewrite Hpost.
Qed.

Lemma second_last_part_address (address p : str) :
  second_last_part (strip <$> split_on comma address) = Some p →
  address ≠ [].
Proof. intros Hp ->. discriminate Hp. Qed.
End District.

(** C7, amended.  When the address holds no 5-digit postal code and its
    trailing comma-separated segment is empty once the country name and the
    postal codes are stripped, the second-to-last segment is taken exactly
    when it has at most three tokens and holds no run of five digits (a
    segment without any digit is such a segment): then it is the district
    candidate of [_parse_il_ilce], the district returned when no location
    text is given, and the segment from which [_parse_il_from_address_only]
    reads its answer; otherwise there is no district candidate, no district
    and no address-only province. *)
Theorem second_last_segment_fallback_guard `{UnicodeDB} (address p : str) :
  isspace slash = false →
  isdecimal slash = false →
  _extract_postal_code_from_address address = None →
  clean_last_part (strip <$> split_on comma address) = [] →
  second_last_part (strip <$> split_on comma address) = Some p →
  (has_five_decimals (strip p) = false
   ∧ (length (split_ws (strip p)) ≤ 3)%nat →
   (parse_candidates (strip <$> split_on comma address)).2 = Some (strip p)
   ∧ (_parse_il_ilce (Some address) None).2 = Some (strip p)
   ∧ _parse_il_from_address_only (Some address) = il_of_last_part (strip p))
  ∧ (¬ (has_five_decimals (strip p) = false
        ∧ (length (split_ws (strip p)) ≤ 3)%nat) →
     (parse_candidates (strip <$> split_on comma address)).2 = None
     ∧ (_parse_il_ilce (Some address) None).2 = None
     ∧ _parse_il_from_address_only (Some address) = None)
  ∧ (Forall (λ c, isdecimal c = false) (strip p) →
     has_five_decimals (strip p) = false).
Proof.
  intros Hspace Hdec Hpc Hclean Hsecond.
  set (parts := strip <$> split_on comma address) in *.
  assert (Hslash : contains [slash] (last_part parts) = false).
  { destruct (contains [slash] (last_part parts)) eqn:E; [|done].
    apply contains_char in E.
    apply (clean_last_part_keeps slash Hspace Hdec) in E.
    - rewrite Hclean in E. by apply not_elem_of_nil in E.
    - apply (bool_decide_unpack _). vm_compute. exact I.
    - apply (bool_decide_unpack _). vm_compute. exact I. }
  pose proof (second_last_part_address _ _ Hsecond) as Hne.
  assert (Hpost : postal_il_of address = None).
  { unfold postal_il_of. by rewrite Hpc. }
  assert (Hcand : parse_candidates parts
                  = (Some (last_part parts),
                     if short_name (strip p) then Some (strip p) else None)).
  { unfold parse_candidates. rewrite Hslash. simpl. by rewrite Hsecond. }
  assert (Hilce : (_parse_il_ilce (Some address) None).2
                  = if short_name (strip p) then Some (strip p) else None).
  { unfold _parse_il_ilce. simpl.
    destruct address as [|a address]; [done|]. rewrite when_truthy_cons.
    fold parts. destruct parts as [|p0 ps] eqn:Eparts; [done|].
    rewrite Hcand. destruct (short_name (strip p)); simpl.
    - rewrite (ilce_valid_without_postal _ _ _ Hpost). simpl.
      by rewrite andb_false_r.
    - by rewrite andb_false_r. }
  assert (Honly : _parse_il_from_address_only (Some address)
                  = if short_name (strip p) then il_of_last_part (strip p)
                    else None).
  { unfold _parse_il_from_address_only.
    destruct address as [|a address]; [done|]. rewrite when_truthy_cons.
    rewrite Hpost. fold parts. destruct parts as [|p0 ps] eqn:Eparts; [done|].
    rewrite Hclean, Hsecond. simpl. by destruct (short_name (strip p)). }
  rewrite Hcand, Hilce, Honly. unfold short_name. split_and!.
  - intros [-> Htokens]. by rewrite bool_decide_eq_true_2.
  - intros Hguard.
    destruct (has_five_decimals (strip p)) eqn:E5; simpl; [done|].
    rewrite bool_decide_eq_false_2; [done|]. intros Htokens. by apply Hguard.
  - apply no_decimal_no_postal.
Qed.

Lemma second_last_segment_fallback_guard_witness :
  @isspace Latin.db slash = false
  ∧ @isdecimal Latin.db slash = false
  ∧ @_extract_postal_code_from_address Latin.db atakum_address = None
  ∧ @clean_last_part Latin.db (@strip Latin.db <$> split_on comma atakum_address)
    = []
  ∧ second_last_part (@strip Latin.db <$> split_on comma atakum_address)
    = Some (lit "Atakum")
  ∧ (@has_five_decimals Latin.db (@strip Latin.db (lit "Atakum")) = false
     ∧ (length (@split_ws Latin.db (@strip Latin.db (lit "Atakum"))) ≤ 3)%nat)
  ∧ (@parse_candidates Latin.db
       (@strip Latin.db <$> split_on comma atakum_address)).2
    = Some (@strip Latin.db (lit "Atakum"))
  ∧ (@_parse_il_ilce Latin.db (Some atakum_address) None).2
    = Some (@strip Latin.db (lit "Atakum"))
  ∧ @_parse_il_from_address_only Latin.db (Some atakum_address)
    = @il_of_last_part Latin.db (@strip Latin.db (lit "Atakum")).
Proof.
  assert (H1 : @isspace Latin.db slash = false) by reflexivity.
  assert (H2 : @isdecimal Latin.db slash = false) by reflexivity.
  assert (H3 : @_extract_postal_code_from_address Latin.db atakum_address = None)
    by (vm_compute; reflexivity).
  assert (H4 : @clean_last_part Latin.db
                 (@strip Latin.db <$> split_on comma atakum_address) = [])
    by (vm_compute; reflexivity).
  assert (H5 : second_last_part
                 (@strip Latin.db <$> split_on comma atakum_address)
               = Some (lit "Atakum")) by (vm_compute; reflexivity).
  assert (H6 : @has_five_decimals Latin.db (@strip Latin.db (lit "Atakum"))
               = false
               ∧ (length (@split_ws Latin.db (@strip Latin.db (lit "Atakum")))
                  ≤ 3)%nat) by (split; vm_compute; [reflexivity|lia]).
  refine (conj H1 (conj H2 (conj H3 (conj H4 (conj H5 (conj H6 _)))))).
  exact (proj1 (@second_last_segment_fallback_guard Latin.db atakum_address
                  (lit "Atakum") H1 H2 H3 H4 H5) H6).
Defined.

(** C7 as stated fails: the proviso "contains no digits" is not the guard of
    the code.  In "Cadde 12, Türkiye" there is no postal code, the trailing
    segment is empty once cleaned, and the second-to-last segment "Cadde 12"
    holds digits; yet it is the district candidate, the district returned by
    [_parse_il_ilce], and the text that [_parse_il_from_address_only]
    returns. *)
Lemma digits_do_not_block_fallback :
  @_extract_postal_code_from_address Latin.db cadde_address = None
  ∧ @clean_last_part Latin.db (@strip Latin.db <$> split_on comma cadde_address)
    = []
  ∧ second_last_part (@strip Latin.db <$> split_on comma cadde_address)
    = Some (lit "Cadde 12")
  ∧ (length (@split_ws Latin.db (lit "Cadde 12")) ≤ 3)%nat
  ∧ ¬ Forall (λ c, @isdecimal Latin.db c = false) (lit "Cadde 12")
  ∧ (@parse_candidates Latin.db
       (@strip Latin.db <$> split_on comma cadde_address)).2
    = Some (lit "Cadde 12")
  ∧ @_parse_il_ilce Latin.db (Some cadde_address) None
    = (Some Turkiye, Some (lit "Cadde 12"))
  ∧ @_parse_il_from_address_only Latin.db (Some cadde_address)
    = Some (lit "Cadde 12").
Proof.
  split_and!; try (vm_compute; reflexivity).
  - vm_compute. lia.
  - intros Hall. apply (bool_decide_pack _) in Hall. vm_compute in Hall.
    exact Hall.
Qed.

(** ** Scenarios of the specification, run on the embedding *)

Section Scenarios.
Local Existing Instance Latin.db.

(** "Atakum, 55200 Samsun" with the declared location "Samsun": the district
    is "Atakum" and the gate lets the lead through. *)
Example scenario_samsun :
  _parse_il_ilce (Some (lit "Atakum, 55200 Samsun")) (Some (lit "Samsun"))
  = (Some (lit "Samsun"), Some (lit "Atakum"))
  ∧ geo_gate (declared_il (lit "Samsun"))
      (lead_at "Bayi" (Some (lit "Atakum, 55200 Samsun")) "p1") = true.
Proof. split; vm_compute; reflexivity. Qed.

(** "Merkez, Malatya" with the declared location "Samsun": the address parses
    to "malatya" and the gate rejects the lead. *)
Example scenario_malatya :
  _parse_il_from_address_only (Some (lit "Merkez, Malatya"))
  = Some (lit "malatya")
  ∧ geo_gate (declared_il (lit "Samsun"))
      (lead_at "Bayi" (Some (lit "Merkez, Malatya")) "p1") = false.
Proof. split; vm_compute; reflexivity. Qed.

(** Limit 50 against sixty results in three pages: three requests, two
    sleeps, fifty items, nothing left to read. *)
Example scenario_fifty_of_sixty :
  search_loop 50 [] None sixty_results
  = ([Request None; Sleep; Request (Some (lit "a")); Sleep;
      Request (Some (lit "b"))],
     LoopDone (take 50 (concat (results <$> sixty_results))) []).
Proof. vm_compute. reflexivity. Qed.

(** Two leads with the same [place_id]: the first one is kept. *)
Example scenario_dedupe :
  dedupe by_place_id
    [lead_at "A" None "p1"; lead_at "B" None "p2"; lead_at "C" None "p1"]
  = [lead_at "A" None "p1"; lead_at "B" None "p2"].
Proof. vm_compute. reflexivity. Qed.
End Scenarios.

(** * Further properties of the code *)

(** ** Postal codes and the table *)

Section PostalCode.
Context `{UnicodeDB}.

Lemma search_postal_from_infix (before : option N) (x pc : str) :
  search_postal_from before x = Some pc →
  ∃ pre post, x = pre ++ pc ++ post
    ∧ length pc = 5%nat ∧ Forall (λ c, isdecimal c = true) pc.
Proof.
  revert before pc. induction x as [|c x IH]; intros before pc;
    cbn [search_postal_from]; [discriminate|].
  destruct (boundary before (Some c) && five_decimals (c :: x)
            && boundary ((c :: x) !! 4%nat) ((c :: x) !! 5%nat)) eqn:E.
  - intros [= <-].
    apply andb_prop in E as [E _]. apply andb_prop in E as [_ E].
    apply five_decimals_split in E as (d & mid & rest & Ex & L4 & Hd & Hall).
    simplify_eq. exists [], rest.
    assert (Htake : take 4 (mid ++ rest) = mid) by by apply take_app_length'.
    rewrite Htake. split_and!; [done|simpl; lia|by constructor].
  - intros Hs. destruct (IH _ _ Hs) as (pre & post & -> & L5 & Hall).
    by exists (c :: pre), post.
Qed.

Lemma search_postal_from_needs_digits (before : option N) (x : str) :
  has_five_decimals x = false → search_postal_from before x = None.
Proof.
  revert before. induction x as [|c x IH]; intros before; [done|].
  cbn [has_five_decimals search_postal_from].
  intros [E5 Hx]%orb_false_elim. rewrite E5, andb_false_r. simpl. by apply IH.
Qed.
End PostalCode.

(** X1. A postal code extracted from an address is a run of exactly five
    decimal digits that occurs in the address; an address without five
    consecutive digits has no postal code. *)
Theorem extracted_postal_code_is_five_digits `{UnicodeDB} (address : str) :
  (∀ pc, _extract_postal_code_from_address address = Some pc →
         length pc = 5%nat
         ∧ Forall (λ c, isdecimal c = true) pc
         ∧ ∃ pre post, address = pre ++ pc ++ post)
  ∧ (has_five_decimals address = false →
     _extract_postal_code_from_address address = None).
Proof.
  split.
  - intros pc Hpc. apply search_postal_from_infix in Hpc
      as (pre & post & -> & L5 & Hall). split_and!; [done|done|by exists pre, post].
  - apply search_postal_from_needs_digits.
Qed.

Lemma dict_get_elem (k v : str) (d : list (str * str)) :
  dict_get k d = Some v → (k, v) ∈ d.
Proof.
  induction d as [|[k' v'] d IH]; simpl; [discriminate|].
  case_decide as Hk.
  - intros [= <-]. subst. apply list_elem_of_here.
  - intros Hd. apply list_elem_of_further. by apply IH.
Qed.

Lemma table_provinces_distinct : NoDup (POSTAL_CODE_TO_IL.*2).
Proof. apply (bool_decide_unpack _). vm_compute. exact I. Qed.

Lemma NoDup_snd_inj (d : list (str * str)) (k k' v : str) :
  NoDup (d.*2) → (k, v) ∈ d → (k', v) ∈ d → k = k'.
Proof.
  induction d as [|[k0 v0] d IH]; simpl.
  - by intros _ ?%not_elem_of_nil.
  - rewrite NoDup_cons. intros [Hv0 Hnd] Hk Hk'.
    apply elem_of_cons in Hk as [Hk|Hk];
      apply elem_of_cons in Hk' as [Hk'|Hk']; simplify_eq; try done.
    + exfalso. apply Hv0. apply list_elem_of_fmap. by exists (k', v0).
    + exfalso. apply Hv0. apply list_elem_of_fmap. by exists (k, v0).
    + by apply IH.
Qed.

(** X2. The province of a postal code depends on its first two characters
    only, a code shorter than two characters has no province, every province
    returned is a non-empty value of the table, and two codes with the same
    province have the same prefix. *)
Theorem postal_prefix_decides_province (pc pc' : str) :
  (take 2 pc = take 2 pc' → (2 ≤ length pc)%nat → (2 ≤ length pc')%nat →
   _get_il_from_postal_code pc = _get_il_from_postal_code pc')
  ∧ ((length pc < 2)%nat → _get_il_from_postal_code pc = None)
  ∧ (∀ P, _get_il_from_postal_code pc = Some P →
          P ≠ [] ∧ (take 2 pc, P) ∈ POSTAL_CODE_TO_IL)
  ∧ (∀ P, _get_il_from_postal_code pc = Some P →
          _get_il_from_postal_code pc' = Some P →
          take 2 pc = take 2 pc').
Proof.
  unfold _get_il_from_postal_code. split_and!.
  - intros E Hl Hl'. rewrite !decide_True by done. by rewrite E.
  - intros Hl. rewrite decide_False by lia. done.
  - intros P HP. split.
    + apply (table_value_nonempty pc). unfold _get_il_from_postal_code. done.
    + case_decide; [|discriminate]. by apply dict_get_elem.
  - intros P HP HP'. repeat case_decide; try discriminate.
    apply dict_get_elem in HP, HP'.
    by apply (NoDup_snd_inj _ _ _ _ table_provinces_distinct HP HP').
Qed.

Lemma postal_prefix_decides_province_witness :
  take 2 (lit "55200") = take 2 (lit "55999")
  ∧ _get_il_from_postal_code (lit "55200")
    = _get_il_from_postal_code (lit "55999")
  ∧ (length (lit "5") < 2)%nat
  ∧ _get_il_from_postal_code (lit "5") = None.
Proof.
  assert (H1 : take 2 (lit "55200") = take 2 (lit "55999")) by reflexivity.
  assert (H2 : (length (lit "5") < 2)%nat) by (vm_compute; lia).
  split_and!; [exact H1| |exact H2|].
  - apply (proj1 (postal_prefix_decides_province (lit "55200") (lit "55999")) H1);
      vm_compute; lia.
  - exact (proj1 (proj2 (postal_prefix_decides_province (lit "5") [])) H2).
Defined.

(** ** Normal forms *)

Lemma replace_char_absent (c d : N) (new x : str) :
  d ∉ new → d = c ∨ d ∉ x → d ∉ replace [c] new x.
Proof.
  intros Hnew. unfold replace. induction x as [|e x IH]; intros Hd.
  - apply not_elem_of_nil.
  - cbn [replace_from startswith length pred].
    assert (Hx : d = c ∨ d ∉ x).
    { destruct Hd as [->|Hd]; [by left|]. right.
      intros Hin. apply Hd. by apply list_elem_of_further. }
    case_bool_decide as Hec; simpl.
    + intros [Hin|Hin]%elem_of_app; [done|by apply IH].
    + intros [->|Hin]%elem_of_cons; [|by apply IH].
      destruct Hd as [->|Hd]; [done|]. apply Hd, list_elem_of_here.
Qed.

(** X3. The normal form of a province name holds none of the letters ı, ğ,
    ü, ş, ö, ç, whatever the name and the character database. *)
Theorem normal_form_has_no_turkish_letters `{UnicodeDB} (il_name : str) (d : N) :
  d ∈ [c_dotless_i; c_g_breve; c_u_uml; c_s_cedilla; c_o_uml; c_c_cedilla] →
  d ∉ _normalize_il_name il_name.
Proof.
  intros Hd. unfold _normalize_il_name.
  set (x0 := lower (strip il_name)).
  repeat (apply elem_of_cons in Hd as [->|Hd]);
    [..|by apply not_elem_of_nil in Hd].
  all: repeat first
    [ apply replace_char_absent;
        [apply (bool_decide_unpack _); vm_compute; exact I|];
        first [left; reflexivity | right] ].
Qed.

Lemma normal_form_has_no_turkish_letters_witness :
  c_g_breve ∈ [c_dotless_i; c_g_breve; c_u_uml; c_s_cedilla; c_o_uml; c_c_cedilla]
  ∧ c_g_breve ∉ @_normalize_il_name Latin.db mugla_address.
Proof.
  assert (H1 : c_g_breve ∈ [c_dotless_i; c_g_breve; c_u_uml; c_s_cedilla;
                            c_o_uml; c_c_cedilla])
    by (apply (bool_decide_unpack _); vm_compute; exact I).
  split; [exact H1|].
  exact (@normal_form_has_no_turkish_letters Latin.db mugla_address c_g_breve H1).
Defined.

Lemma extracted_postal_code_is_five_digits_witness :
  @_extract_postal_code_from_address Latin.db (lit "Atakum, 55200 Samsun")
  = Some (lit "55200")
  ∧ length (lit "55200") = 5%nat
  ∧ Forall (λ c, @isdecimal Latin.db c = true) (lit "55200")
  ∧ ∃ pre post, lit "Atakum, 55200 Samsun" = pre ++ lit "55200" ++ post.
Proof.
  assert (H1 : @_extract_postal_code_from_address Latin.db
                 (lit "Atakum, 55200 Samsun") = Some (lit "55200"))
    by (vm_compute; reflexivity).
  split; [exact H1|].
  exact (proj1 (@extracted_postal_code_is_five_digits Latin.db
                  (lit "Atakum, 55200 Samsun")) (lit "55200") H1).
Defined.

(** ** The geographic gate *)

(** X4. When the query declares a province and the address of a lead holds a
    postal code, the gate accepts the lead exactly when the prefix maps to a
    province whose normal form is that of the declared province; no other
    text of the address plays a part. *)
Theorem gate_decided_by_postal_code `{UnicodeDB} (location_il : option str)
    (loc address postal_code : str) (item : lead) :
  when_truthy location_il = Some loc →
  formatted_address item = Some address →
  _extract_postal_code_from_address address = Some postal_code →
  geo_gate location_il item = true
  ↔ ∃ P, _get_il_from_postal_code postal_code = Some P
         ∧ _normalize_il_name loc = _normalize_il_name P.
Proof.
  intros Hloc Haddr Hpc. unfold geo_gate. rewrite Hloc, Haddr.
  pose proof (postal_code_address_nonempty _ _ Hpc) as Hne.
  destruct address as [|a address]; [done|]. rewrite when_truthy_cons.
  rewrite Hpc, (postal_code_truthy _ _ Hpc).
  destruct (_get_il_from_postal_code postal_code) as [P|] eqn:EP.
  - pose proof (table_value_nonempty _ _ EP) as HP.
    destruct P as [|p P]; [done|]. rewrite when_truthy_cons.
    case_decide as Hn.
    + split; [discriminate|]. intros (P' & [= <-] & Heq). by destruct Hn.
    + split; [|done]. intros _. exists (p :: P). split; [done|].
      first [exact Hn | by apply dec_stable].
  - simpl. split; [discriminate|]. by intros (P' & ? & _).
Qed.

Lemma gate_decided_by_postal_code_witness :
  when_truthy (Some (lit "Samsun")) = Some (lit "Samsun")
  ∧ formatted_address
      (lead_at "Bayi" (Some (lit "Malatya Cd., 55200 Atakum")) "p1")
    = Some (lit "Malatya Cd., 55200 Atakum")
  ∧ @_extract_postal_code_from_address Latin.db
      (lit "Malatya Cd., 55200 Atakum") = Some (lit "55200")
  ∧ @geo_gate Latin.db (Some (lit "Samsun"))
      (lead_at "Bayi" (Some (lit "Malatya Cd., 55200 Atakum")) "p1") = true.
Proof.
  assert (H1 : when_truthy (Some (lit "Samsun")) = Some (lit "Samsun"))
    by reflexivity.
  assert (H2 : formatted_address
                 (lead_at "Bayi" (Some (lit "Malatya Cd., 55200 Atakum")) "p1")
               = Some (lit "Malatya Cd., 55200 Atakum")) by reflexivity.
  assert (H3 : @_extract_postal_code_from_address Latin.db
                 (lit "Malatya Cd., 55200 Atakum") = Some (lit "55200"))
    by (vm_compute; reflexivity).
  split_and!; [exact H1|exact H2|exact H3|].
  apply (proj2 (@gate_decided_by_postal_code Latin.db _ _ _ _ _ H1 H2 H3)).
  exists (lit "samsun"). split; vm_compute; reflexivity.
Defined.

Lemma split_on_trailing_sep (sep : N) (y : str) :
  ∃ p ps, split_on sep (y ++ [sep]) = p :: ps ++ [[]].
Proof.
  induction y as [|c y (p & ps & IH)]; simpl.
  - rewrite bool_decide_eq_true_2 by done. by exists [], [].
  - rewrite IH. case_bool_decide.
    + by exists [], (p :: ps).
    + by exists (c :: p), ps.
Qed.

(** X5. A location text that still ends with a comma once the country name
    is removed (such as "Samsun, Türkiye") declares the empty province: the
    geographic gate is then off and every lead is judged by the attribute
    filters alone. *)
Theorem trailing_comma_disables_gate `{UnicodeDB} (location_text y : str) :
  location_text ≠ [] →
  strip (replace (lit "turkey") [] (replace Turkiye [] location_text))
  = y ++ [comma] →
  declared_il location_text = Some []
  ∧ ∀ (f : filters) (item : lead),
      geo_gate (declared_il location_text) item = true
      ∧ pass_filters (declared_il location_text) f item
        = attribute_filters f item.
Proof.
  intros Hne Hclean.
  assert (Hdecl : declared_il location_text = Some []).
  { unfold declared_il, _extract_il_from_location_text.
    destruct location_text as [|c t]; [done|]. simpl nonempty. simpl negb.
    cbv iota. rewrite Hclean.
    destruct (split_on_trailing_sep comma y) as (p & ps & ->).
    rewrite fmap_cons, fmap_app. simpl.
    unfold last_part. rewrite last_cons, last_snoc. done. }
  split; [exact Hdecl|]. intros f item. rewrite Hdecl.
  assert (G : geo_gate (Some []) item = true) by done.
  split; [exact G|]. unfold pass_filters. by rewrite G.
Qed.

Lemma trailing_comma_disables_gate_witness :
  lit "Samsun, " ++ Turkiye ≠ []
  ∧ @strip Latin.db
      (replace (lit "turkey") [] (replace Turkiye [] (lit "Samsun, " ++ Turkiye)))
    = lit "Samsun" ++ [comma]
  ∧ @declared_il Latin.db (lit "Samsun, " ++ Turkiye) = Some []
  ∧ @geo_gate Latin.db (@declared_il Latin.db (lit "Samsun, " ++ Turkiye))
      (lead_at "Bayi" (Some (lit "Merkez, 44100 Malatya")) "p1") = true.
Proof.
  assert (H1 : lit "Samsun, " ++ Turkiye ≠ []) by discriminate.
  assert (H2 : @strip Latin.db
                 (replace (lit "turkey") []
                    (replace Turkiye [] (lit "Samsun, " ++ Turkiye)))
               = lit "Samsun" ++ [comma]) by (vm_compute; reflexivity).
  destruct (@trailing_comma_disables_gate Latin.db _ _ H1 H2) as [Hd Hg].
  split_and!; [exact H1|exact H2|exact Hd|].
  exact (proj1 (Hg no_filters
                  (lead_at "Bayi" (Some (lit "Merkez, 44100 Malatya")) "p1"))).
Defined.

(** ** The resolver *)

Lemma startswith_refl (x : str) : startswith x x = true.
Proof.
  induction x as [|c x IH]; simpl; [done|].
  by rewrite bool_decide_eq_true_2, IH.
Qed.

Lemma contains_refl (x : str) : contains x x = true.
Proof. destruct x; simpl; [done|]. by rewrite bool_decide_eq_true_2, startswith_refl. Qed.

(** X6. A district returned by [_parse_il_ilce] next to a province is
    consistent with the postal code of the address: when both are non-empty
    and the address holds a postal code of a known province, the returned
    province has the normal form of that province. *)
Theorem kept_district_agrees_with_postal `{UnicodeDB} (address : str)
    (location_text : option str) (il ilce P : str) :
  _parse_il_ilce (Some address) location_text = (Some il, Some ilce) →
  il ≠ [] → ilce ≠ [] →
  postal_il_of address = Some P →
  _normalize_il_name il = _normalize_il_name P.
Proof.
  intros Hres Hil Hilce HP. unfold _parse_il_ilce in Hres.
  destruct address as [|a address]; [discriminate Hres|].
  rewrite when_truthy_cons in Hres.
  destruct (parts_nonempty (a :: address)) as (p & ps & Eparts).
  rewrite Eparts in Hres.
  destruct (parse_candidates (p :: ps)) as [parsed_il parsed_ilce].
  match type of Hres with
  | context [match ?m with (_, _) => _ end] => destruct m as [fi fc]
  end.
  destruct (truthy fi && truthy fc
            && negb (_is_ilce_valid_for_il fc fi (Some (a :: address)))) eqn:E;
    [discriminate Hres|].
  injection Hres as -> ->.
  destruct il as [|i il]; [done|]. destruct ilce as [|j ilce]; [done|].
  simpl in E. apply negb_false_iff in E.
  unfold _is_ilce_valid_for_il in E. simpl in E.
  rewrite HP in E. by case_decide.
Qed.

Lemma kept_district_agrees_with_postal_witness :
  @_parse_il_ilce Latin.db (Some (lit "Atakum, 55200 Samsun"))
    (Some (lit "Samsun"))
  = (Some (lit "Samsun"), Some (lit "Atakum"))
  ∧ lit "Samsun" ≠ [] ∧ lit "Atakum" ≠ []
  ∧ @postal_il_of Latin.db (lit "Atakum, 55200 Samsun") = Some (lit "samsun")
  ∧ @_normalize_il_name Latin.db (lit "Samsun")
    = @_normalize_il_name Latin.db (lit "samsun").
Proof.
  assert (H1 : @_parse_il_ilce Latin.db (Some (lit "Atakum, 55200 Samsun"))
                 (Some (lit "Samsun"))
               = (Some (lit "Samsun"), Some (lit "Atakum")))
    by (vm_compute; reflexivity).
  assert (H2 : lit "Samsun" ≠ []) by discriminate.
  assert (H3 : lit "Atakum" ≠ []) by discriminate.
  assert (H4 : @postal_il_of Latin.db (lit "Atakum, 55200 Samsun")
               = Some (lit "samsun")) by (vm_compute; reflexivity).
  split_and!; [exact H1|exact H2|exact H3|exact H4|].
  exact (@kept_district_agrees_with_postal Latin.db _ _ _ _ _ H1 H2 H3 H4).
Defined.

(** X7. When the query declares a province, [_parse_il_ilce] always returns
    a province, and it is the declared one or a province read off the address
    whose normal form contains, or is contained in, the normal form of the
    declared one. *)
Theorem resolved_province_near_declared `{UnicodeDB} (address : option str)
    (location_text loc : str) :
  when_truthy (declared_il location_text) = Some loc →
  ∃ il, (_parse_il_ilce address (Some location_text)).1 = Some il
    ∧ (il = loc
       ∨ contains (_normalize_il_name loc) (_normalize_il_name il) = true
       ∨ contains (_normalize_il_name il) (_normalize_il_name loc) = true).
Proof.
  intros Hloc.
  pose proof (proj1 (when_truthy_Some _ _) Hloc) as [Hdecl _].
  unfold _parse_il_ilce. rewrite location_il_declared, Hloc, Hdecl.
  destruct (when_truthy address) as [a|]; [|exists loc; by split; [|left]].
  destruct (parts_nonempty a) as (p & ps & ->).
  destruct (parse_candidates (p :: ps)) as [parsed_il parsed_ilce].
  destruct (postal_il_of a) as [P|].
  - case_decide as Hn; [exists loc; by split; [|left]|].
    destruct (when_truthy parsed_il) as [q|] eqn:Eq;
      [|exists loc; by split; [|left]].
    apply when_truthy_Some in Eq as [-> _].
    case_decide as Hq; [exists loc; by split; [|left]|].
    exists q. split; [done|]. right. left.
    assert (_normalize_il_name loc = _normalize_il_name q) as ->
      by first [exact Hq | by apply dec_stable].
    apply contains_refl.
  - destruct (when_truthy parsed_il) as [q|] eqn:Eq;
      [|exists loc; by split; [|left]].
    apply when_truthy_Some in Eq as [-> _].
    destruct (negb _ && negb _) eqn:E; [exists loc; by split; [|left]|].
    exists q. split; [done|]. right.
    apply andb_false_iff in E as [E|E]; apply negb_false_iff in E; auto.
Qed.

Lemma resolved_province_near_declared_witness :
  when_truthy (@declared_il Latin.db (lit "Samsun")) = Some (lit "Samsun")
  ∧ ∃ il, (@_parse_il_ilce Latin.db (Some (lit "Merkez, Malatya"))
             (Some (lit "Samsun"))).1 = Some il
      ∧ (il = lit "Samsun"
         ∨ contains (@_normalize_il_name Latin.db (lit "Samsun"))
             (@_normalize_il_name Latin.db il) = true
         ∨ contains (@_normalize_il_name Latin.db il)
             (@_normalize_il_name Latin.db (lit "Samsun")) = true).
Proof.
  assert (H1 : when_truthy (@declared_il Latin.db (lit "Samsun"))
               = Some (lit "Samsun")) by (vm_compute; reflexivity).
  split; [exact H1|].
  exact (@resolved_province_near_declared Latin.db
           (Some (lit "Merkez, Malatya")) _ _ H1).
Defined.

(** ** The accumulation loop: effects and errors *)

Lemma trace_of_cons (tok : option str) (data : page) (read : list page) :
  read ≠ [] →
  trace_of tok (data :: read)
  = Request tok :: Sleep :: trace_of (next_page_token data) read.
Proof. by destruct read. Qed.

Lemma search_loop_cases (L : Z) (c : list raw_result) (tok : option str)
    (script : list page) :
  (¬ Z.of_nat (length c) < L ∧ search_loop L c tok script = ([], LoopDone c script))
  ∨ (Z.of_nat (length c) < L ∧ script = []
     ∧ search_loop L c tok script = ([], LoopPending c))
  ∨ (Z.of_nat (length c) < L ∧ ∃ data rest, script = data :: rest).
Proof.
  destruct (decide (Z.of_nat (length c) < L)) as [Hlt|Hge].
  - destruct script as [|data rest].
    + right. left. split_and!; [done|done|].
      cbn [search_loop]. by rewrite decide_True.
    + right. right. split; [done|]. by exists data, rest.
  - left. split; [done|]. by apply search_loop_full.
Qed.

Lemma search_loop_first_request (L : Z) (c : list raw_result)
    (tok : option str) (data : page) (rest : list page) :
  Z.of_nat (length c) < L →
  ∃ evs, (search_loop L c tok (data :: rest)).1 = Request tok :: evs.
Proof.
  intros Hlt. rewrite search_loop_unfold by done.
  destruct (negb _); [by eexists|]. simpl.
  destruct (negb (truthy _) || _ || _); by eexists.
Qed.

(** X8. The effects of the loop follow the pages it reads: the first request
    carries the initial token, every later request carries the continuation
    token of the page before it and comes after one sleep, and no sleep
    follows the last request of a run that ends; every page read before the
    last answered OK with a continuation token. *)
Theorem search_loop_trace (L : Z) (script : list page) :
  ∀ (c : list raw_result) (tok : option str),
    match (search_loop L c tok script).2 with
    | LoopDone _ unread =>
        ∃ read, script = read ++ unread
          ∧ (search_loop L c tok script).1 = trace_of tok read
    | LoopError st data =>
        ∃ read unread, script = read ++ data :: unread
          ∧ (search_loop L c tok script).1 = trace_of tok (read ++ [data])
          ∧ st = status data
          ∧ st ≠ Some (lit "OK") ∧ st ≠ Some (lit "ZERO_RESULTS")
          ∧ Forall (λ d, status d = Some (lit "OK")
                         ∧ truthy (next_page_token d) = true) read
    | LoopPending _ =>
        (search_loop L c tok script).1
        = match script with
          | [] => []
          | _ :: _ => trace_of tok script ++ [Sleep]
          end
    end.
Proof.
  induction script as [|data rest IH]; intros c tok.
  - destruct (search_loop_cases L c tok [])
      as [[_ ->]|[(_ & _ & ->)|(_ & d & r & E)]];
      simpl; [by exists []|done|done].
  - destruct (search_loop_cases L c tok (data :: rest))
      as [[_ ->]|[(_ & E & _)|(Hlt & _)]]; [by exists []|done|].
    rewrite search_loop_unfold by done.
    destruct (negb _) eqn:Est; simpl.
    { exists [], rest. unfold is_status in Est.
      apply negb_true_iff, orb_false_elim in Est as [E1 E2].
      apply bool_decide_eq_false in E1, E2. split_and!; done. }
    set (c' := take (Z.to_nat L) (c ++ results data)).
    destruct (negb (truthy _) || _ || _) eqn:Estop; simpl.
    { by exists [data]. }
    apply orb_false_elim in Estop as [Estop Ezero].
    apply orb_false_elim in Estop as [Etok Efull].
    apply negb_false_iff in Etok. apply bool_decide_eq_false in Efull.
    assert (Hok : status data = Some (lit "OK")).
    { apply negb_false_iff, orb_true_iff in Est as [E|E].
      - by apply bool_decide_eq_true in E.
      - by rewrite E in Ezero. }
    destruct (search_loop_cases L c' (next_page_token data) rest)
      as [[Hfull _]|[(_ & -> & ->)|(Hlt' & d0 & rest' & ->)]];
      [lia|done|].
    destruct (search_loop_first_request L c' (next_page_token data) d0 rest' Hlt')
      as (evs0 & Eev).
    specialize (IH c' (next_page_token data)).
    destruct (search_loop L c' (next_page_token data) (d0 :: rest'))
      as [evs out].
    simpl in *. subst evs. destruct out as [c'' unread|st d|c''].
    + destruct IH as (read & Er & Et).
      destruct read as [|d1 read]; [discriminate Et|].
      exists (data :: d1 :: read). split; [by rewrite Er|].
      by rewrite trace_of_cons, Et.
    + destruct IH as (read & unread & Er & Et & Hst & Hn1 & Hn2 & Hall).
      exists (data :: read), unread. split_and!; try done.
      * by rewrite Er.
      * change ((data :: read) ++ [d]) with (data :: (read ++ [d])).
        rewrite trace_of_cons, Et; [done|]. by destruct read.
      * by constructor.
    + by rewrite IH.
Qed.

Lemma search_loop_runs_into_error (L : Z) (data : page) (unread : list page) :
  status data ≠ Some (lit "OK") →
  status data ≠ Some (lit "ZERO_RESULTS") →
  ∀ (read : list page) (c : list raw_result) (tok : option str),
    Forall (λ d, status d = Some (lit "OK")
                 ∧ truthy (next_page_token d) = true) read →
    Z.of_nat (length (c ++ concat (results <$> read))) < L →
    (search_loop L c tok (read ++ data :: unread)).2
    = LoopError (status data) data.
Proof.
  intros Hn1 Hn2. induction read as [|d read IH]; intros c tok Hall Hlen.
  - simpl in Hlen. rewrite app_nil_r in Hlen.
    change ([] ++ data :: unread) with (data :: unread).
    rewrite search_loop_unfold by done.
    unfold is_status.
    rewrite (bool_decide_eq_false_2 (status data = Some (lit "OK"))) by done.
    by rewrite (bool_decide_eq_false_2 (status data = Some (lit "ZERO_RESULTS")))
      by done.
  - apply Forall_cons in Hall as [[Hok Htok] Hall].
    simpl in Hlen. rewrite app_assoc in Hlen.
    assert (Hc : Z.of_nat (length (c ++ results d)) < L).
    { rewrite length_app in Hlen. lia. }
    assert (Hc0 : Z.of_nat (length c) < L).
    { rewrite length_app in Hc. lia. }
    change ((d :: read) ++ data :: unread) with (d :: (read ++ data :: unread)).
    rewrite search_loop_unfold by done.
    rewrite (take_ge (c ++ results d)) by lia.
    unfold is_status. rewrite Hok, Htok.
    rewrite (bool_decide_eq_true_2 (Some (lit "OK") = Some (lit "OK"))) by done.
    rewrite (bool_decide_eq_false_2 (Some (lit "OK") = Some (lit "ZERO_RESULTS")))
      by discriminate.
    rewrite (bool_decide_eq_false_2 (L ≤ _)) by lia.
    simpl. by apply IH.
Qed.

(** X9. When the provider answers a page with a status other than OK and
    ZERO_RESULTS, after pages that answered OK with a continuation token and
    did not fill the limit, the search fails with that status and that page,
    and nothing of what was collected is returned. *)
Theorem provider_error_aborts_search `{UnicodeDB} (p : provider)
    (location_text : str) (L : Z) (include_details : bool) (loc : Q * Q)
    (read unread : list page) (data : page) :
  geocode p location_text = Some loc →
  pages p = read ++ data :: unread →
  Forall (λ d, status d = Some (lit "OK")
               ∧ truthy (next_page_token d) = true) read →
  Z.of_nat (length (concat (results <$> read))) < L →
  status data ≠ Some (lit "OK") →
  status data ≠ Some (lit "ZERO_RESULTS") →
  search_leads p location_text L include_details
  = SearchFailed (ProviderError (status data) data).
Proof.
  intros Hgeo Hpages Hall Hlen Hn1 Hn2. unfold search_leads.
  rewrite Hgeo, Hpages.
  by rewrite (search_loop_runs_into_error L data unread Hn1 Hn2 read [] None).
Qed.

Lemma provider_error_aborts_search_witness :
  @search_leads Latin.db
    {| geocode_api := λ _, Some (41 # 1, 36 # 1)%Q;
       pages := denied_script;
       place_details_api := λ _ _, LookupRaised |}
    (lit "Samsun") 50 true
  = SearchFailed (ProviderError (Some (lit "REQUEST_DENIED")) denied_page).
Proof.
  apply (@provider_error_aborts_search Latin.db _ (lit "Samsun") 50 true
           (41 # 1, 36 # 1)%Q [page_of "a"] [page_of "c"] denied_page).
  - reflexivity.
  - reflexivity.
  - repeat constructor.
  - vm_compute. reflexivity.
  - discriminate.
  - discriminate.
Defined.

(** X10. Called with a limit of zero or less, [search_leads] geocodes the
    location and then returns success with no lead, without reading a page
    and without any detail lookup. *)
Theorem nonpositive_limit_collects_nothing `{UnicodeDB} (p : provider)
    (location_text : str) (L : Z) (include_details : bool) (loc : Q * Q) :
  L ≤ 0 →
  geocode p location_text = Some loc →
  search_loop L [] None (pages p) = ([], LoopDone [] (pages p))
  ∧ search_leads p location_text L include_details = SearchOk [] loc.
Proof.
  intros HL Hgeo.
  assert (Hloop : search_loop L [] None (pages p) = ([], LoopDone [] (pages p))).
  { apply search_loop_full. simpl. lia. }
  split; [exact Hloop|]. unfold search_leads. rewrite Hgeo, Hloop. simpl.
  by rewrite andb_false_r.
Qed.

Lemma nonpositive_limit_collects_nothing_witness :
  0 ≤ 0
  ∧ @geocode Latin.db failing_details (lit "Samsun") = Some (41 # 1, 36 # 1)%Q
  ∧ @search_leads Latin.db failing_details (lit "Samsun") 0 true
    = SearchOk [] (41 # 1, 36 # 1)%Q.
Proof.
  assert (H0 : 0 ≤ 0) by lia.
  assert (H1 : @geocode Latin.db failing_details (lit "Samsun")
               = Some (41 # 1, 36 # 1)%Q) by reflexivity.
  split_and!; [exact H0|exact H1|].
  exact (proj2 (@nonpositive_limit_collects_nothing Latin.db failing_details
                  (lit "Samsun") 0 true _ H0 H1)).
Defined.

(** ** Enrichment and the filters *)

Lemma enrich_cases (place_details : str → lookup) (item : raw_result) :
  enrich place_details item = item
  ∨ ∃ d, enrich place_details item = set_details d item.
Proof.
  unfold enrich. destruct (when_truthy (r_place_id item)); [|by left].
  destruct (place_details _) as [|st result]; [by left|].
  destruct (is_status "OK" st); [right; by eexists|by left].
Qed.

(** X11. Enrichment touches nothing but the [details] block: the name, the
    address and the [place_id] of the lead built from an enriched item are
    those of the item as collected, so the verdict of the geographic gate and
    the dedupe key do not depend on any detail lookup. *)
Theorem enrichment_keeps_identity `{UnicodeDB} (place_details : str → lookup)
    (item : raw_result) (location_il : option str) (mode : dedupe_by) :
  let x := to_lead (enrich place_details item) in
  name x = r_name item
  ∧ formatted_address x = r_formatted_address item
  ∧ place_id x = r_place_id item
  ∧ geo_gate location_il x = geo_gate location_il (to_lead item)
  ∧ key_of mode x = key_of mode (to_lead item).
Proof.
  destruct (enrich_cases place_details item) as [->|[d ->]];
    by destruct mode.
Qed.

(** X12. A lookup that answers OK, for an item that has a [place_id],
    attaches the answer: the lead shows the phone numbers, the website and the
    opening state of the answer, whatever [details] the item held before. *)
Theorem successful_lookup_fills_contact (place_details : str → lookup)
    (item : raw_result) (pid : str) (result : details) :
  r_place_id item = Some pid → pid ≠ [] →
  place_details pid = LookupReplied (Some (lit "OK")) result →
  let x := to_lead (enrich place_details item) in
  phone x = formatted_phone_number result
  ∧ phone_intl x = international_phone_number result
  ∧ website x = d_website result
  ∧ open_now x = mjoin (opening_hours result).
Proof.
  intros Hpid Hne Hok. unfold enrich.
  rewrite (proj2 (when_truthy_Some _ _) (conj Hpid Hne)), Hok. done.
Qed.

Lemma successful_lookup_fills_contact_witness :
  r_place_id (raw_at "Bayi" "Atakum, 55200 Samsun" "p1") = Some (lit "p1")
  ∧ lit "p1" ≠ []
  ∧ phone (to_lead (enrich (place_details_api answering_details 0)
                      (raw_at "Bayi" "Atakum, 55200 Samsun" "p1")))
    = Some (lit "0362 111 22 33").
Proof.
  assert (H1 : r_place_id (raw_at "Bayi" "Atakum, 55200 Samsun" "p1")
               = Some (lit "p1")) by reflexivity.
  assert (H2 : lit "p1" ≠ []) by discriminate.
  split_and!; [exact H1|exact H2|].
  exact (proj1 (successful_lookup_fills_contact
                  (place_details_api answering_details 0) _ _ phone_details
                  H1 H2 eq_refl)).
Defined.

(** X13. A lead without a [details] block (enrichment off, or its lookup
    failed) has no phone, no website and no opening state; it is rejected as
    soon as a phone or website is required, or only open places are asked
    for. *)
Theorem lead_without_details_lacks_contact `{UnicodeDB} (item : raw_result)
    (location_il : option str) (f : filters) :
  r_details item = None →
  (require_phone_or_website f = true ∨ only_open_now f = Some true) →
  pass_filters location_il f (to_lead item) = false.
Proof.
  intros Hdet Hf. unfold pass_filters.
  destruct (geo_gate location_il (to_lead item)); [|done]. simpl.
  unfold attribute_filters, to_lead. rewrite Hdet. simpl.
  destruct Hf as [-> | ->]; simpl; rewrite ?andb_false_r; done.
Qed.

Lemma lead_without_details_lacks_contact_witness :
  r_details (raw_at "Bayi" "Atakum, 55200 Samsun" "p1") = None
  ∧ require_phone_or_website requiring_contact = true
  ∧ @pass_filters Latin.db (Some (lit "Samsun")) requiring_contact
      (to_lead (raw_at "Bayi" "Atakum, 55200 Samsun" "p1")) = false.
Proof.
  assert (H1 : r_details (raw_at "Bayi" "Atakum, 55200 Samsun" "p1") = None)
    by reflexivity.
  assert (H2 : require_phone_or_website requiring_contact = true) by reflexivity.
  split_and!; [exact H1|exact H2|].
  exact (@lead_without_details_lacks_contact Latin.db _ (Some (lit "Samsun"))
           requiring_contact H1 (or_introl H2)).
Defined.

(** ** The facade: what is delivered *)

Lemma delivered_is_pipeline `{UnicodeDB}
    (leads_to_sheet_rows : list lead → str → bool → list str * list (list str))
    (p : provider) (env : environment) (q : request)
    (leads_raw : list raw_result) (loc : Q * Q) :
  search_leads p (location_text q) (clamp_limit (limit q)) (include_details q)
  = SearchOk leads_raw loc →
  delivered (find_business_leads leads_to_sheet_rows p env q)
  = filter_pipeline (declared_il (location_text q)) (req_filters q)
      (req_dedupe_by q) (to_lead <$> leads_raw).
Proof.
  intros Hsearch. unfold find_business_leads. rewrite Hsearch.
  by destruct (req_output_format q).
Qed.

(** X14. The leads of a response are the collected leads that pass the
    filters, in the order of collection, one per dedupe key. *)
Theorem delivered_leads_are_filtered_subsequence `{UnicodeDB}
    (leads_to_sheet_rows : list lead → str → bool → list str * list (list str))
    (p : provider) (env : environment) (q : request)
    (leads_raw : list raw_result) (loc : Q * Q) :
  search_leads p (location_text q) (clamp_limit (limit q)) (include_details q)
  = SearchOk leads_raw loc →
  let out := delivered (find_business_leads leads_to_sheet_rows p env q) in
  out `sublist_of` (to_lead <$> leads_raw)
  ∧ Forall (λ x, pass_filters (declared_il (location_text q)) (req_filters q) x
                 = true) out
  ∧ NoDup (key_of (req_dedupe_by q) <$> out).
Proof.
  intros Hsearch. simpl. rewrite (delivered_is_pipeline _ _ _ _ _ _ Hsearch).
  unfold filter_pipeline. split_and!.
  - etrans; [apply dedupe_sublist|apply filter_sublist].
  - apply Forall_forall. intros x Hx.
    pose proof (filter_satisfies
                  (pass_filters (declared_il (location_text q)) (req_filters q))
                  (to_lead <$> leads_raw)) as Hall.
    rewrite Forall_forall in Hall. apply Hall.
    eapply elem_of_sublist; [exact Hx|apply dedupe_sublist].
  - rewrite dedupe_keep_first. apply keep_first_NoDup.
Qed.

Lemma delivered_leads_are_filtered_subsequence_witness :
  @search_leads Latin.db failing_details (location_text (sample_request 50))
    (clamp_limit (limit (sample_request 50)))
    (include_details (sample_request 50))
  = SearchOk (take 50 (concat (results <$> sixty_results))) (41 # 1, 36 # 1)%Q
  ∧ delivered (@find_business_leads Latin.db sample_rows failing_details
                 sample_env (sample_request 50))
    `sublist_of` (to_lead <$> take 50 (concat (results <$> sixty_results))).
Proof.
  assert (H1 : @search_leads Latin.db failing_details
                 (location_text (sample_request 50))
                 (clamp_limit (limit (sample_request 50)))
                 (include_details (sample_request 50))
               = SearchOk (take 50 (concat (results <$> sixty_results)))
                   (41 # 1, 36 # 1)%Q) by (vm_compute; reflexivity).
  split; [exact H1|].
  exact (proj1 (@delivered_leads_are_filtered_subsequence Latin.db sample_rows
                  failing_details sample_env (sample_request 50) _ _ H1)).
Defined.

Section KeepFirstCount.
Context `{Countable K} (key : lead → K).

Lemma keep_first_of_key (k : K) (seen : gset K) (l : list lead) :
  List.filter (λ x, bool_decide (key x = k)) (keep_first key seen l)
  = if decide (k ∈ seen) then []
    else take 1 (List.filter (λ x, bool_decide (key x = k)) l).
Proof.
  revert seen. induction l as [|x l IH]; intros seen; simpl.
  - by case_decide.
  - destruct (decide (key x ∈ seen)) as [Hx|Hx].
    + rewrite IH. case_bool_decide as Hk; [|done].
      subst. by rewrite !decide_True by done.
    + simpl. rewrite IH. case_bool_decide as Hk.
      * subst. rewrite (decide_False (P := key x ∈ seen)) by done.
        rewrite (decide_True (P := key x ∈ {[key x]} ∪ seen)).
        -- simpl. by rewrite take_0.
        -- apply elem_of_union_l, elem_of_singleton. done.
      * destruct (decide (k ∈ seen)) as [Hs|Hs].
        -- rewrite decide_True; [done|]. by apply elem_of_union_r.
        -- rewrite decide_False; [done|].
           rewrite elem_of_union, elem_of_singleton. intros [?|?]; done.
Qed.
End KeepFirstCount.

(** X15. Under both dedupe modes, the leads of a given key that survive are
    the first lead of this key and no other.  In the [place_id] mode a missing
    [place_id] is a key like any other: of all the leads without a [place_id]
    only the first is kept. *)
Theorem leads_without_place_id_collapse `{UnicodeDB} (mode : dedupe_by)
    (k : dedupe_key) (l : list lead) :
  List.filter (λ x, bool_decide (key_of mode x = k)) (dedupe mode l)
  = take 1 (List.filter (λ x, bool_decide (key_of mode x = k)) l)
  ∧ List.filter (λ x, bool_decide (place_id x = None)) (dedupe by_place_id l)
    = take 1 (List.filter (λ x, bool_decide (place_id x = None)) l).
Proof.
  assert (Hgen : ∀ m k',
    List.filter (λ x, bool_decide (key_of m x = k')) (dedupe m l)
    = take 1 (List.filter (λ x, bool_decide (key_of m x = k')) l)).
  { intros m k'. rewrite dedupe_keep_first, keep_first_of_key.
    rewrite decide_False; [done|]. apply not_elem_of_empty. }
  split; [apply Hgen|].
  specialize (Hgen by_place_id (inl None)).
  assert (Hext : ∀ l' : list lead,
    List.filter (λ x, bool_decide (place_id x = None)) l'
    = List.filter (λ x, bool_decide (key_of by_place_id x = inl None)) l').
  { intros l'. apply List.filter_ext. intros x. simpl.
    apply bool_decide_ext. split; [by intros ->|by intros [= ->]]. }
  by rewrite !Hext.
Qed.

(** X16. With [output_format = "csv"] nothing is exported: the response is
    the same whatever the export arguments of the request, the environment
    and the sheet service are.  Its columns are the requested columns that
    are known, in the requested order, when there is any, and the default
    columns when no column is requested or none of the requested ones is
    known; they are never empty, and the total is the number of rows. *)
Theorem csv_output_never_exports `{UnicodeDB}
    (rows rows' : list lead → str → bool → list str * list (list str))
    (p : provider) (env env' : environment) (q : request)
    (export' : bool) (sid' sheet' : option str) (raw_json' : bool) :
  req_output_format q = csv →
  find_business_leads rows p env q
  = find_business_leads rows' p env'
      (with_export export' sid' sheet' raw_json' q)
  ∧ match find_business_leads rows p env q with
    | CsvEnvelope total cols out =>
        total = length out ∧ cols ≠ [] ∧ cols ⊆ default_cols
        ∧ (∀ wanted,
             csv_columns q = Some wanted →
             List.filter (λ c, bool_decide (c ∈ default_cols)) wanted ≠ [] →
             cols = List.filter (λ c, bool_decide (c ∈ default_cols)) wanted)
        ∧ (csv_columns q = None
           ∨ (∃ wanted, csv_columns q = Some wanted
                ∧ List.filter (λ c, bool_decide (c ∈ default_cols)) wanted = []) →
           cols = default_cols)
    | JsonEnvelope _ _ _ => False
    | ErrorEnvelope _ | Pending => True
    end.
Proof.
  intros Hcsv. unfold find_business_leads.
  change (req_output_format (with_export export' sid' sheet' raw_json' q))
    with (req_output_format q).
  change (keyword (with_export export' sid' sheet' raw_json' q))
    with (keyword q).
  change (location_text (with_export export' sid' sheet' raw_json' q))
    with (location_text q).
  change (limit (with_export export' sid' sheet' raw_json' q)) with (limit q).
  change (include_details (with_export export' sid' sheet' raw_json' q))
    with (include_details q).
  change (req_filters (with_export export' sid' sheet' raw_json' q))
    with (req_filters q).
  change (csv_columns (with_export export' sid' sheet' raw_json' q))
    with (csv_columns q).
  change (req_dedupe_by (with_export export' sid' sheet' raw_json' q))
    with (req_dedupe_by q).
  rewrite Hcsv.
  destruct (search_leads _ _ _ _) as [e|leads_raw loc|]; [done| |done].
  split; [done|]. split; [done|].
  set (wanted := default default_cols (nonempty_list (csv_columns q))).
  assert (Hwanted : ∀ ws,
            csv_columns q = Some ws →
            List.filter (λ c, bool_decide (c ∈ default_cols)) ws ≠ [] →
            wanted = ws).
  { intros ws Hq Hne. unfold wanted. rewrite Hq.
    destruct ws as [|w ws]; [done|reflexivity]. }
  destruct (List.filter _ wanted) as [|c cols] eqn:Ecols.
  - split_and!; [done|done| |done].
    intros ws Hq Hne. rewrite <- (Hwanted ws Hq Hne) in Hne. by rewrite Ecols in Hne.
  - split_and!; [done| | |].
    + intros x Hx. rewrite <- Ecols in Hx.
      apply list_elem_of_In, List.filter_In in Hx as [_ Hx].
      by apply bool_decide_eq_true in Hx.
    + intros ws Hq Hne. by rewrite <- (Hwanted ws Hq Hne), Ecols.
    + intros Hnone. rewrite <- Ecols. clear Hwanted. subst wanted.
      destruct Hnone as [Hq|(ws & Hq & Hnil)]; rewrite Hq in *;
        [reflexivity|].
      destruct ws as [|w ws]; [reflexivity|].
      change (default default_cols (nonempty_list (Some (w :: ws))))
        with (w :: ws) in Ecols.
      by rewrite Hnil in Ecols.
Qed.

Lemma csv_output_never_exports_witness :
  req_output_format csv_request = csv
  ∧ @find_business_leads Latin.db sample_rows failing_details sample_env
      csv_request
    = @find_business_leads Latin.db sample_rows failing_details
        env_without_sheet
        (with_export false (Some (lit "sheet-2")) (Some (lit "Arsiv")) true
           csv_request)
  ∧ match @find_business_leads Latin.db sample_rows failing_details sample_env
            csv_request with
    | CsvEnvelope total cols out => cols = [lit "name"] ∧ total = length out
    | _ => False
    end.
Proof.
  assert (H1 : req_output_format csv_request = csv) by reflexivity.
  destruct (@csv_output_never_exports Latin.db sample_rows sample_rows
              failing_details sample_env env_without_sheet csv_request
              false (Some (lit "sheet-2")) (Some (lit "Arsiv")) true H1)
    as [Hsame Hshape].
  split_and!; [exact H1|exact Hsame|].
  destruct (@find_business_leads Latin.db sample_rows failing_details
              sample_env csv_request) as [e|total cols out|leads total note|]
    eqn:Eresp; try (vm_compute in Eresp; discriminate Eresp).
  destruct Hshape as (Htotal & _ & _ & Hwanted & _).
  split; [|exact Htotal].
  apply (Hwanted [lit "name"; lit "email"]); [reflexivity|].
  vm_compute. discriminate.
Defined.

(** ** The sheet appender *)

(** X17. The export always writes to the tab "Leads": neither the
    [google_sheets_sheet_name] argument nor the environment's sheet name
    changes what the export does, and a successful export reports the tab
    "Leads", the spreadsheet id it used (the argument when given, else the
    environment's) and the number of rows it sent. *)
Theorem export_always_targets_leads_tab
    (rows : list lead → str → bool → list str * list (list str))
    (env : environment) (keyword : str) (sid_arg : option str)
    (sheet_arg sheet_arg' : option str) (raw_json : bool) (unique : list lead) :
  export rows env keyword sid_arg sheet_arg raw_json unique
  = export rows env keyword sid_arg sheet_arg' raw_json unique
  ∧ ∀ written rows_sent,
      export rows env keyword sid_arg sheet_arg raw_json unique
      = inr (written, rows_sent) →
      res_sheet_name written = lit "Leads"
      ∧ Some (res_spreadsheet_id written)
        = (if truthy sid_arg then sid_arg
           else GOOGLE_SHEETS_SPREADSHEET_ID env)
      ∧ rows_sent = length (rows unique keyword raw_json).2.
Proof.
  split; [done|]. intros written rows_sent. unfold export, new_appender.
  destruct (when_truthy _) as [sid|] eqn:Esid; [|discriminate].
  apply when_truthy_Some in Esid as [Esid _].
  destruct (build_service env) as [e|api]; [discriminate|]. simpl.
  destruct (rows unique keyword raw_json) as [header body]. simpl.
  destruct (ensure_header _ header) as [e|[]]; [discriminate|]. simpl.
  unfold append_rows. simpl.
  destruct (_check_sheet_exists _) as [e|[|]]; simpl; try discriminate.
  destruct (api_append api body) as [e|upd]; simpl; [discriminate|].
  intros [= <- <-]. by rewrite Esid.
Qed.

Lemma export_always_targets_leads_tab_witness :
  export sample_rows
    {| GOOGLE_SHEETS_AUTO_EXPORT := None;
       GOOGLE_SHEETS_SPREADSHEET_ID := Some (lit "sheet-1");
       GOOGLE_SHEETS_SHEET_NAME := Some (lit "Arsiv");
       build_service := inr api_with_header |}
    (lit "bayi") None (Some (lit "Bayiler")) false [lead_at "Bayi" None "p1"]
  = inr ({| res_spreadsheet_id := lit "sheet-1";
            res_sheet_name := lit "Leads";
            updated_range := Some (lit "Leads!A2");
            updated_rows := Some 1 |}, 1%nat)
  ∧ res_sheet_name
      {| res_spreadsheet_id := lit "sheet-1";
         res_sheet_name := lit "Leads";
         updated_range := Some (lit "Leads!A2");
         updated_rows := Some 1 |} = lit "Leads".
Proof.
  assert (H1 : export sample_rows
    {| GOOGLE_SHEETS_AUTO_EXPORT := None;
       GOOGLE_SHEETS_SPREADSHEET_ID := Some (lit "sheet-1");
       GOOGLE_SHEETS_SHEET_NAME := Some (lit "Arsiv");
       build_service := inr api_with_header |}
    (lit "bayi") None (Some (lit "Bayiler")) false [lead_at "Bayi" None "p1"]
  = inr ({| res_spreadsheet_id := lit "sheet-1";
            res_sheet_name := lit "Leads";
            updated_range := Some (lit "Leads!A2");
            updated_rows := Some 1 |}, 1%nat)) by (vm_compute; reflexivity).
  split; [exact H1|].
  exact (proj1 (proj2 (export_always_targets_leads_tab sample_rows _ _ _ _ None
                         _ _) _ _ H1)).
Defined.

(** X18. [ensure_header] on an existing tab never overwrites a header: when
    the first row holds a value it returns without sending the update
    request (so even an update that would fail does no harm); when the first
    row is empty its outcome is that of the update request for the header. *)
Theorem ensure_header_keeps_existing_header (a : GoogleSheetsAppender)
    (header : list str) (titles row : list (option str)) :
  api_titles (_service a) = inr titles →
  Some (sheet_name a) ∈ titles →
  api_first_row (_service a) = inr row →
  (omap id row ≠ [] → ensure_header a header = inr tt)
  ∧ (omap id row = [] →
     ensure_header a header = api_update_header (_service a) header).
Proof.
  intros Htitles Hin Hrow. unfold ensure_header, _check_sheet_exists,
    _get_first_row. rewrite Htitles. simpl.
  rewrite bool_decide_eq_true_2 by done. simpl. rewrite Hrow. simpl.
  split; intros Hex; [by destruct (omap id row)|by rewrite Hex].
Qed.

Lemma ensure_header_keeps_existing_header_witness :
  api_titles (_service (leads_appender api_with_header))
  = inr [Some (lit "Leads")]
  ∧ Some (sheet_name (leads_appender api_with_header)) ∈ [Some (lit "Leads")]
  ∧ api_first_row (_service (leads_appender api_with_header))
    = inr [Some (lit "Kategori")]
  ∧ omap id [Some (lit "Kategori")] ≠ []
  ∧ api_update_header api_with_header sheet_header
    = inl (OtherException (lit "quota"))
  ∧ ensure_header (leads_appender api_with_header) sheet_header = inr tt.
Proof.
  assert (H1 : api_titles (_service (leads_appender api_with_header))
               = inr [Some (lit "Leads")]) by reflexivity.
  assert (H2 : Some (sheet_name (leads_appender api_with_header))
               ∈ [Some (lit "Leads")]) by apply list_elem_of_here.
  assert (H3 : api_first_row (_service (leads_appender api_with_header))
               = inr [Some (lit "Kategori")]) by reflexivity.
  assert (H4 : omap id [Some (lit "Kategori")] ≠ []) by discriminate.
  split_and!; [exact H1|exact H2|exact H3|exact H4|reflexivity|].
  exact (proj1 (ensure_header_keeps_existing_header _ sheet_header _ _ H1 H2 H3)
           H4).
Defined.

(** X19. Without a spreadsheet id (none passed and none in the environment)
    the export fails before it builds the service, and the facade reports
    this as the [google_sheets] annotation of an otherwise complete JSON
    response. *)
Theorem export_needs_spreadsheet_id `{UnicodeDB}
    (rows : list lead → str → bool → list str * list (list str))
    (p : provider) (env : environment) (q : request)
    (leads_raw : list raw_result) (location : Q * Q) :
  truthy (google_sheets_spreadsheet_id q) = false →
  truthy (GOOGLE_SHEETS_SPREADSHEET_ID env) = false →
  search_leads p (location_text q) (clamp_limit (limit q)) (include_details q)
  = SearchOk leads_raw location →
  req_output_format q = json →
  export_to_google_sheets q || auto_export_on env = true →
  (∀ unique,
     export rows env (keyword q) (google_sheets_spreadsheet_id q)
       (google_sheets_sheet_name q) (google_sheets_include_raw_json q) unique
     = inl (RuntimeError
              (lit "spreadsheet_id verilmedi (GOOGLE_SHEETS_SPREADSHEET_ID).")))
  ∧ ∃ unique,
      find_business_leads rows p env q
      = JsonEnvelope unique (length unique)
          (Some (SheetsFailed (auto_export_on env)
                   (lit "spreadsheet_id verilmedi (GOOGLE_SHEETS_SPREADSHEET_ID)."))).
Proof.
  intros Harg Henv Hsearch Hjson Hexport.
  assert (Hexp : ∀ unique,
     export rows env (keyword q) (google_sheets_spreadsheet_id q)
       (google_sheets_sheet_name q) (google_sheets_include_raw_json q) unique
     = inl (RuntimeError
              (lit "spreadsheet_id verilmedi (GOOGLE_SHEETS_SPREADSHEET_ID)."))).
  { intros unique. unfold export, new_appender. rewrite Harg.
    by rewrite (proj2 (when_truthy_None _) Henv). }
  split; [exact Hexp|]. eexists. unfold find_business_leads.
  rewrite Hsearch, Hjson, Hexport. by rewrite Hexp.
Qed.

Lemma export_needs_spreadsheet_id_witness :
  truthy (google_sheets_spreadsheet_id (sample_request 50)) = false
  ∧ truthy (GOOGLE_SHEETS_SPREADSHEET_ID env_without_sheet) = false
  ∧ ∃ unique,
      @find_business_leads Latin.db sample_rows failing_details
        env_without_sheet (sample_request 50)
      = JsonEnvelope unique (length unique)
          (Some (SheetsFailed (@auto_export_on Latin.db env_without_sheet)
                   (lit "spreadsheet_id verilmedi (GOOGLE_SHEETS_SPREADSHEET_ID)."))).
Proof.
  assert (H1 : truthy (google_sheets_spreadsheet_id (sample_request 50)) = false)
    by reflexivity.
  assert (H2 : truthy (GOOGLE_SHEETS_SPREADSHEET_ID env_without_sheet) = false)
    by reflexivity.
  assert (H3 : @search_leads Latin.db failing_details
                 (location_text (sample_request 50))
                 (clamp_limit (limit (sample_request 50)))
                 (include_details (sample_request 50))
               = SearchOk (take 50 (concat (results <$> sixty_results)))
                   (41 # 1, 36 # 1)%Q) by (vm_compute; reflexivity).
  split_and!; [exact H1|exact H2|].
  exact (proj2 (@export_needs_spreadsheet_id Latin.db sample_rows
                  failing_details env_without_sheet (sample_request 50) _ _
                  H1 H2 H3 eq_refl eq_refl)).
Defined.

(** ** Phones, categories and sheet rows *)

Lemma or_sentinel_nonempty (o : option str) : or_sentinel o ≠ [].
Proof.
  unfold or_sentinel. destruct (when_truthy o) as [x|] eqn:E; simpl; [|done].
  by apply when_truthy_Some in E as [_ ?].
Qed.

Lemma or_sentinel_cons (c : N) (x : str) : or_sentinel (Some (c :: x)) = c :: x.
Proof. reflexivity. Qed.

Lemma is_turkish_mobile_shape (x : str) :
  _is_turkish_mobile x = true →
  length x = 11%nat ∧ take 2 x = lit "05"
  ∧ take 4 x ∈ valid_mobile_prefixes.
Proof.
  unfold _is_turkish_mobile.
  destruct (bool_decide (length x = 11%nat)) eqn:Hlen; cbn [negb];
    [|discriminate].
  destruct (startswith (lit "05") x) eqn:Es; cbn [negb]; [|discriminate].
  apply bool_decide_eq_true in Hlen.
  intros Hp%bool_decide_eq_true. split_and!; [done| |done].
  apply startswith_app in Es as [rest ->]. reflexivity.
Qed.

Lemma nonempty_ne (x : str) : x ≠ [] → nonempty x = true.
Proof. by destruct x. Qed.

Lemma or_sentinel_ne (x : str) : x ≠ [] → or_sentinel (Some x) = x.
Proof. by destruct x. Qed.

Lemma sentinel_nonempty : sentinel ≠ [].
Proof. discriminate. Qed.

(** The seven ways in which [_split_phone] fills its two cells. *)
Lemma split_phone_cases `{UnicodeDB} (phone phone_intl : option str) :
  (∃ intl, when_truthy phone_intl = Some intl
     ∧ _is_turkish_mobile (_normalize_phone intl) = true
     ∧ _split_phone phone phone_intl = (intl, sentinel))
  ∨ (∃ intl ph, when_truthy phone_intl = Some intl
       ∧ when_truthy phone = Some ph
       ∧ _is_turkish_mobile (_normalize_phone ph) = true
       ∧ _split_phone phone phone_intl = (ph, intl))
  ∨ (∃ ph, when_truthy phone = Some ph
       ∧ _is_turkish_mobile (_normalize_phone ph) = true
       ∧ when_truthy phone_intl = None
       ∧ _split_phone phone phone_intl = (ph, sentinel))
  ∨ (∃ ph, when_truthy phone = Some ph
       ∧ _split_phone phone phone_intl = (sentinel, ph))
  ∨ (∃ intl, when_truthy phone_intl = Some intl
       ∧ _split_phone phone phone_intl = (sentinel, intl))
  ∨ _split_phone phone phone_intl = (sentinel, sentinel).
Proof.
  unfold _split_phone.
  destruct (when_truthy phone_intl) as [intl|] eqn:Ei.
  - pose proof (proj1 (when_truthy_Some _ _) Ei) as [_ Hi].
    destruct (_is_turkish_mobile (_normalize_phone intl)) eqn:Em.
    + left. exists intl. split_and!; [done|done|].
      destruct (when_truthy phone) as [ph|]; cbv beta iota zeta;
        rewrite ?(nonempty_ne intl Hi); by rewrite (or_sentinel_ne intl Hi).
    + destruct (when_truthy phone) as [ph|] eqn:Ep; cbv beta iota zeta.
      * pose proof (proj1 (when_truthy_Some _ _) Ep) as [_ Hp].
        change (nonempty []) with false. cbv iota.
        destruct (_is_turkish_mobile (_normalize_phone ph)) eqn:Em'.
        -- right. left. exists intl, ph. split_and!; [done|done|done|].
           by rewrite (or_sentinel_ne ph Hp), (or_sentinel_ne intl Hi).
        -- do 3 right. left. exists ph. split; [done|].
           by rewrite (or_sentinel_ne ph Hp).
      * do 4 right. left. exists intl. split; [done|].
        by rewrite (or_sentinel_ne intl Hi).
  - destruct (when_truthy phone) as [ph|] eqn:Ep; cbv beta iota zeta.
    + pose proof (proj1 (when_truthy_Some _ _) Ep) as [_ Hp].
      change (nonempty []) with false. cbv iota.
      destruct (_is_turkish_mobile (_normalize_phone ph)) eqn:Em'.
      * do 2 right. left. exists ph. split_and!; [done|done|done|].
        by rewrite (or_sentinel_ne ph Hp).
      * do 3 right. left. exists ph. split; [done|].
        by rewrite (or_sentinel_ne ph Hp).
    + do 5 right. done.
Qed.

(** X20. [_split_phone] never returns an empty cell.  The mobile cell is the
    sentinel or one of the two numbers as given, and then that number, once
    normalized, has eleven characters, starts with "05" and bears a known
    mobile prefix; the landline cell is the sentinel or one of the two
    numbers.  A mobile [phone_intl] takes the mobile cell and leaves the
    landline cell empty whatever [phone] is. *)
Theorem split_phone_cells `{UnicodeDB} (phone phone_intl : option str) :
  (_split_phone phone phone_intl).1 ≠ []
  ∧ (_split_phone phone phone_intl).2 ≠ []
  ∧ ((_split_phone phone phone_intl).1 = sentinel
     ∨ ((Some (_split_phone phone phone_intl).1 = phone
         ∨ Some (_split_phone phone phone_intl).1 = phone_intl)
        ∧ length (_normalize_phone (_split_phone phone phone_intl).1) = 11%nat
        ∧ take 2 (_normalize_phone (_split_phone phone phone_intl).1) = lit "05"
        ∧ take 4 (_normalize_phone (_split_phone phone phone_intl).1)
          ∈ valid_mobile_prefixes))
  ∧ ((_split_phone phone phone_intl).2 = sentinel
     ∨ Some (_split_phone phone phone_intl).2 = phone
     ∨ Some (_split_phone phone phone_intl).2 = phone_intl)
  ∧ (∀ intl, phone_intl = Some intl → intl ≠ [] →
       _is_turkish_mobile (_normalize_phone intl) = true →
       _split_phone phone phone_intl = (intl, sentinel)).
Proof.
  assert (Hmob : ∀ x, _is_turkish_mobile (_normalize_phone x) = true →
            length (_normalize_phone x) = 11%nat
            ∧ take 2 (_normalize_phone x) = lit "05"
            ∧ take 4 (_normalize_phone x) ∈ valid_mobile_prefixes)
    by (intros x; apply is_turkish_mobile_shape).
  assert (Hlast : ∀ intl, phone_intl = Some intl → intl ≠ [] →
            _is_turkish_mobile (_normalize_phone intl) = true →
            _split_phone phone phone_intl = (intl, sentinel)).
  { intros intl -> Hi Hm. unfold _split_phone.
    rewrite (proj2 (when_truthy_Some _ _) (conj eq_refl Hi)), Hm.
    destruct (when_truthy phone) as [ph|]; cbv beta iota zeta;
      rewrite ?(nonempty_ne intl Hi); by rewrite (or_sentinel_ne intl Hi). }
  set (r := _split_phone phone phone_intl) in *.
  cut (r.1 ≠ [] ∧ r.2 ≠ []
       ∧ (r.1 = sentinel
          ∨ ((Some r.1 = phone ∨ Some r.1 = phone_intl)
             ∧ length (_normalize_phone r.1) = 11%nat
             ∧ take 2 (_normalize_phone r.1) = lit "05"
             ∧ take 4 (_normalize_phone r.1) ∈ valid_mobile_prefixes))
       ∧ (r.2 = sentinel ∨ Some r.2 = phone ∨ Some r.2 = phone_intl)).
  { intros (? & ? & ? & ?). split_and!; [done..|exact Hlast]. }
  clear Hlast.
  destruct (split_phone_cases phone phone_intl)
    as [(intl & Ei & Hm & Hr)
       |[(intl & ph & Ei & Ep & Hm & Hr)
        |[(ph & Ep & Hm & Ei & Hr)
         |[(ph & Ep & Hr)
          |[(intl & Ei & Hr)| Hr]]]]];
    fold r in Hr; rewrite Hr; cbn [fst snd];
    try apply when_truthy_Some in Ei as [Ei Hi];
    try apply when_truthy_Some in Ep as [Ep Hp].
  - split_and!; [done|exact sentinel_nonempty| |by left].
    right. split; [by right|]. by apply Hmob.
  - split_and!; [done|done| |by right; right].
    right. split; [by left|]. by apply Hmob.
  - split_and!; [done|exact sentinel_nonempty| |by left].
    right. split; [by left|]. by apply Hmob.
  - split_and!; [exact sentinel_nonempty|done|by left|by right; left].
  - split_and!; [exact sentinel_nonempty|done|by left|by right; right].
  - split_and!; [exact sentinel_nonempty|exact sentinel_nonempty|by left|by left].
Qed.


Lemma split_phone_cells_witness :
  Some (lit "0532 123 45 67") = Some (lit "0532 123 45 67")
  ∧ lit "0532 123 45 67" ≠ []
  ∧ @_is_turkish_mobile (@_normalize_phone Latin.db (lit "0532 123 45 67")) = true
  ∧ @_split_phone Latin.db (Some (lit "0362 111 22 33"))
      (Some (lit "0532 123 45 67"))
    = (lit "0532 123 45 67", sentinel).
Proof.
  assert (H1 : lit "0532 123 45 67" ≠ []) by discriminate.
  assert (H2 : @_is_turkish_mobile
                 (@_normalize_phone Latin.db (lit "0532 123 45 67")) = true)
    by (vm_compute; reflexivity).
  split_and!; [reflexivity|exact H1|exact H2|].
  exact (proj2 (proj2 (proj2 (proj2
           (@split_phone_cells Latin.db (Some (lit "0362 111 22 33"))
              (Some (lit "0532 123 45 67")))))) _ eq_refl H1 H2).
Defined.

(** *** The category of a keyword *)

Lemma insert_by_len_elem (e e' : str * str) (l : list (str * str)) :
  e' ∈ insert_by_len e l ↔ e' = e ∨ e' ∈ l.
Proof.
  induction l as [|x l IH]; simpl.
  - rewrite list_elem_of_singleton, elem_of_nil. tauto.
  - case_decide; rewrite !elem_of_cons, ?IH; tauto.
Qed.

Lemma sorted_by_len_elem (e : str * str) (d : list (str * str)) :
  e ∈ sorted_by_len d ↔ e ∈ d.
Proof.
  unfold sorted_by_len. induction d as [|x d IH]; simpl; [done|].
  rewrite insert_by_len_elem, elem_of_cons, IH. tauto.
Qed.

Lemma insert_by_len_sorted (e : str * str) (l : list (str * str)) :
  sorted_desc l → sorted_desc (insert_by_len e l).
Proof.
  induction l as [|x l IH]; simpl.
  - by split.
  - intros [Hx Hl]. case_decide as Hlt; simpl.
    + split; [|by apply IH]. apply Forall_forall. intros y Hy.
      apply insert_by_len_elem in Hy as [->|Hy].
      * unfold longer_first. lia.
      * rewrite Forall_forall in Hx. by apply Hx.
    + split_and!; [|done|done]. constructor.
      * unfold longer_first. lia.
      * apply Forall_forall. intros y Hy. rewrite Forall_forall in Hx.
        specialize (Hx y Hy). unfold longer_first in *. lia.
Qed.

Lemma sorted_by_len_sorted (d : list (str * str)) :
  sorted_desc (sorted_by_len d).
Proof.
  unfold sorted_by_len. induction d as [|x d IH]; simpl; [done|].
  by apply insert_by_len_sorted.
Qed.

Lemma find_in_sorted (P : str * str → bool) (l : list (str * str))
    (e : str * str) :
  sorted_desc l →
  List.find P l = Some e →
  e ∈ l ∧ P e = true
  ∧ ∀ e', e' ∈ l → P e' = true → (length e'.1 ≤ length e.1)%nat.
Proof.
  induction l as [|x l IH]; simpl; [discriminate|]. intros [Hx Hl].
  specialize (IH Hl).
  destruct (P x) eqn:Px.
  - intros [= <-]. split_and!; [apply list_elem_of_here|done|].
    intros e' [->|He']%elem_of_cons _; [done|].
    rewrite Forall_forall in Hx. by apply Hx.
  - intros Hf. destruct (IH Hf) as (He & HP & Hmax).
    split_and!; [by apply list_elem_of_further|done|].
    intros e' [->|He']%elem_of_cons HP'; [congruence|by apply Hmax].
Qed.

Lemma find_none_all (P : str * str → bool) (l : list (str * str)) :
  List.find P l = None → ∀ e, e ∈ l → P e = false.
Proof.
  induction l as [|x l IH]; simpl.
  - by intros _ e ?%not_elem_of_nil.
  - destruct (P x) eqn:Px; [discriminate|].
    intros Hf e [->|He]%elem_of_cons; [done|by apply IH].
Qed.

Lemma dict_set_values (P : str → Prop) (k v : str) (d : list (str * str)) :
  P v → Forall (λ e, P e.2) d → Forall (λ e, P e.2) (dict_set k v d).
Proof.
  intros Hv. induction 1 as [|[k' v'] d Hx Hd IH]; simpl.
  - by repeat constructor.
  - case_decide; constructor; done.
Qed.

Section Category.
Context `{UnicodeDB}.

Lemma category_map_values (user_map : list (str * str)) :
  Forall (λ e : str * str, e.2 ≠ []) (category_map user_map).
Proof.
  unfold category_map.
  assert (Hb : Forall (λ e : str * str, e.2 ≠ []) builtin_category_map).
  { apply (bool_decide_unpack _). vm_compute. exact I. }
  revert Hb. generalize builtin_category_map.
  induction user_map as [|kv user_map IH]; intros m Hm; simpl; [done|].
  apply IH. destruct (nonempty (strip kv.1) && nonempty (strip kv.2)) eqn:E;
    [|done].
  apply (dict_set_values (λ v, v ≠ [])); [|done].
  apply andb_prop in E as [_ E]. by destruct (strip kv.2).
Qed.
End Category.

(** X21. The category of a keyword is the value of the longest key of the
    category map (the built-in entries with the user's overrides) that is
    not empty and occurs in the lowercased, stripped keyword; when no such
    key occurs it is "Genel Tarım".  It is never the empty string. *)
Theorem category_of_longest_key `{UnicodeDB} (user_map : list (str * str))
    (keyword : str) :
  let k := lower (strip keyword) in
  let category := _pick_category_for_keyword user_map keyword in
  category ≠ []
  ∧ ((category = default_category
      ∧ ∀ e, e ∈ category_map user_map →
             e.1 = [] ∨ contains e.1 k = false)
     ∨ ∃ e, e ∈ category_map user_map
         ∧ category = e.2
         ∧ e.1 ≠ [] ∧ contains e.1 k = true
         ∧ ∀ e', e' ∈ category_map user_map →
                 e'.1 ≠ [] → contains e'.1 k = true →
                 (length e'.1 ≤ length e.1)%nat).
Proof.
  intros k category. unfold category, _pick_category_for_keyword. fold k.
  set (P := λ e : str * str, nonempty e.1 && contains e.1 k).
  destruct (List.find P (sorted_by_len (category_map user_map)))
    as [e|] eqn:Ef.
  - apply find_in_sorted in Ef as (He & HP & Hmax);
      [|apply sorted_by_len_sorted].
    apply (proj1 (sorted_by_len_elem _ _)) in He.
    apply andb_prop in HP as [Hne Hc].
    split.
    + pose proof (category_map_values user_map) as Hv.
      rewrite Forall_forall in Hv. exact (Hv e He).
    + right. exists e. split_and!; [done|done|by destruct e.1|done|].
      intros e' He' Hne' Hc'.
      apply Hmax; [by apply (proj2 (sorted_by_len_elem _ _))|].
      unfold P. by rewrite (nonempty_ne _ Hne'), Hc'.
  - split; [discriminate|]. left. split; [done|].
    intros e He. pose proof (find_none_all P _ Ef e) as HP.
    specialize (HP (proj2 (sorted_by_len_elem e _) He)).
    unfold P in HP. apply andb_false_iff in HP as [HP|HP]; [left|by right].
    by destruct e.1.
Qed.

Section RowFacts.
Context `{UnicodeDB}.

Lemma pick_category_nonempty (user_map : list (str * str)) (keyword : str) :
  _pick_category_for_keyword user_map keyword ≠ [].
Proof.
  unfold _pick_category_for_keyword.
  destruct (List.find _ _) as [e|] eqn:Ef; [|discriminate].
  apply List.find_some in Ef as [He _].
  apply list_elem_of_In, (proj1 (sorted_by_len_elem _ _)) in He.
  pose proof (category_map_values user_map) as Hv.
  rewrite Forall_forall in Hv. exact (Hv e He).
Qed.

Lemma split_phone_nonempty (phone phone_intl : option str) :
  (_split_phone phone phone_intl).1 ≠ [] ∧ (_split_phone phone phone_intl).2 ≠ [].
Proof.
  destruct (split_phone_cases phone phone_intl)
    as [(intl & Ei & Hm & Hr)
       |[(intl & ph & Ei & Ep & Hm & Hr)
        |[(ph & Ep & Hm & Ei & Hr)
         |[(ph & Ep & Hr)
          |[(intl & Ei & Hr)| Hr]]]]];
    rewrite Hr; cbn [fst snd];
    try apply when_truthy_Some in Ei as [Ei Hi];
    try apply when_truthy_Some in Ep as [Ep Hp];
    split; first [done | exact sentinel_nonempty].
Qed.

Lemma sheet_row_shape (category location_text : str) (x : lead) :
  category ≠ [] →
  length (sheet_row category location_text x) = 7%nat
  ∧ Forall (λ cell, cell ≠ []) (sheet_row category location_text x)
  ∧ sheet_row category location_text x !! 0%nat = Some category
  ∧ sheet_row category location_text x !! 1%nat = Some (or_sentinel (name x))
  ∧ sheet_row category location_text x !! 6%nat = Some sentinel.
Proof.
  intros Hc. unfold sheet_row.
  destruct (_parse_il_ilce _ _) as [il ilce].
  pose proof (split_phone_nonempty (phone x) (phone_intl x)) as [Hcep Hnormal].
  destruct (_split_phone _ _) as [cep normal]. simpl in Hcep, Hnormal.
  split_and!; [done| |done|done|].
  - repeat (constructor; [first [done | apply or_sentinel_nonempty
                                | unfold _extract_email_from_website;
                                  destruct (negb _); exact sentinel_nonempty]|]).
    constructor.
  - unfold _extract_email_from_website. by destruct (negb _).
Qed.
End RowFacts.

(** X22. [leads_to_sheet_rows] returns the fixed header of seven columns and
    one row per lead, in order; every row has seven cells, none of them empty
    (a missing value shows as "-----"), the first cell is the category of the
    keyword, the second the name of the lead or the sentinel, the last (the
    e-mail) is always the sentinel.  The flag [include_raw_json] changes
    nothing. *)
Theorem sheet_rows_are_complete `{UnicodeDB} (user_map : list (str * str))
    (location_text : str) (leads : list lead) (keyword : str) (raw : bool) :
  let out := leads_to_sheet_rows user_map location_text leads keyword raw in
  out.1 = sheet_header
  ∧ length out.1 = 7%nat
  ∧ length out.2 = length leads
  ∧ (∀ i x, leads !! i = Some x →
       ∃ row, out.2 !! i = Some row
         ∧ length row = 7%nat
         ∧ Forall (λ cell, cell ≠ []) row
         ∧ row !! 0%nat = Some (_pick_category_for_keyword user_map keyword)
         ∧ row !! 1%nat = Some (or_sentinel (name x))
         ∧ row !! 6%nat = Some sentinel)
  ∧ out = leads_to_sheet_rows user_map location_text leads keyword (negb raw).
Proof.
  simpl. split_and!; [done|done|by rewrite length_fmap| |done].
  intros i x Hx. eexists. rewrite list_lookup_fmap, Hx. split; [done|].
  apply sheet_row_shape, pick_category_nonempty.
Qed.

Lemma sheet_rows_are_complete_witness :
  [lead_at "Bayi" None "p1"] !! 0%nat = Some (lead_at "Bayi" None "p1")
  ∧ ∃ row,
      (@leads_to_sheet_rows Latin.db [] (lit "Samsun")
         [lead_at "Bayi" None "p1"] (tr "tarım makinaları") false).2 !! 0%nat
      = Some row
      ∧ length row = 7%nat
      ∧ Forall (λ cell, cell ≠ []) row
      ∧ row !! 0%nat
        = Some (@_pick_category_for_keyword Latin.db [] (tr "tarım makinaları"))
      ∧ row !! 1%nat = Some (or_sentinel (name (lead_at "Bayi" None "p1")))
      ∧ row !! 6%nat = Some sentinel.
Proof.
  assert (H1 : [lead_at "Bayi" None "p1"] !! 0%nat
               = Some (lead_at "Bayi" None "p1")) by reflexivity.
  split; [exact H1|].
  exact (proj1 (proj2 (proj2 (proj2
           (@sheet_rows_are_complete Latin.db [] (lit "Samsun")
              [lead_at "Bayi" None "p1"] (tr "tarım makinaları") false))))
           0%nat _ H1).
Defined.

Section MoreScenarios.
Local Existing Instance Latin.db.

(** "tarım makinaları bayileri" holds the keys "tarım makina" and "makina";
    the longer one decides.  A user entry for a longer key wins over both. *)
Example scenario_category :
  _pick_category_for_keyword [] (tr "Tarım Makinaları Bayileri")
  = tr "Tarım Makina"
  ∧ _pick_category_for_keyword
      [(tr "makinaları bayileri", lit "Bayiler")]
      (tr "tarım makinaları bayileri")
    = lit "Bayiler"
  ∧ _pick_category_for_keyword [] (lit "nalbur") = tr "Genel Tarım".
Proof. split_and!; vm_compute; reflexivity. Qed.

(** A row of the sheet for a lead of Samsun with a landline. *)
Example scenario_sheet_row :
  sheet_row (tr "Tarım Makina") (lit "Samsun")
    {| name := Some (lit "Bayi");
       formatted_address := Some (lit "Atakum, 55200 Samsun");
       latitude := None; longitude := None;
       place_id := Some (lit "p1"); types := [];
       rating := None; user_ratings_total := None; business_status := None;
       phone := Some (lit "0362 111 22 33");
       phone_intl := Some (lit "+90 362 111 22 33");
       website := None; open_now := None |}
  = [tr "Tarım Makina"; lit "Bayi"; lit "Samsun"; lit "Atakum"; sentinel;
     lit "0362 111 22 33"; sentinel].
Proof. vm_compute. reflexivity. Qed.
End MoreScenarios.

(** ** The category map as a dict *)

Lemma dict_get_set_eq (k v : str) (d : list (str * str)) :
  dict_get k (dict_set k v d) = Some v.
Proof.
  induction d as [|[k' v'] d IH]; simpl.
  - by rewrite decide_True.
  - case_decide as Hk; simpl.
    + by rewrite decide_True.
    + by rewrite decide_False.
Qed.

Lemma dict_get_set_ne (k k' v : str) (d : list (str * str)) :
  k' ≠ k → dict_get k' (dict_set k v d) = dict_get k' d.
Proof.
  intros Hne. induction d as [|[k0 v0] d IH]; simpl.
  - by rewrite decide_False.
  - case_decide as Hk; simpl.
    + subst. by rewrite !decide_False.
    + case_decide; [done|exact IH].
Qed.

Lemma dict_set_keys (k v : str) (d : list (str * str)) (k' : str) :
  k' ∈ (dict_set k v d).*1 ↔ k' = k ∨ k' ∈ d.*1.
Proof.
  induction d as [|[k0 v0] d IH]; simpl.
  - rewrite list_elem_of_singleton, elem_of_nil. tauto.
  - case_decide as Hk; simpl; rewrite !elem_of_cons, ?IH; [subst|]; tauto.
Qed.

Lemma dict_set_NoDup (k v : str) (d : list (str * str)) :
  NoDup d.*1 → NoDup (dict_set k v d).*1.
Proof.
  induction d as [|[k0 v0] d IH]; simpl.
  - intros _. apply NoDup_singleton.
  - rewrite NoDup_cons. intros [Hk0 Hd]. case_decide as Hk; simpl.
    + subst. by apply NoDup_cons.
    + apply NoDup_cons. split; [|by apply IH].
      rewrite dict_set_keys. intros [?|?]; [by subst|done].
Qed.

Lemma dict_get_NoDup (d : list (str * str)) (e : str * str) :
  NoDup d.*1 → e ∈ d → dict_get e.1 d = Some e.2.
Proof.
  induction d as [|[k0 v0] d IH]; simpl.
  - by intros _ ?%not_elem_of_nil.
  - rewrite NoDup_cons. intros [Hk0 Hd] [->|He]%elem_of_cons; simpl.
    + by rewrite decide_True.
    + rewrite decide_False; [by apply IH|].
      intros Heq. apply Hk0. apply list_elem_of_fmap. by exists e.
Qed.

(** X23. The category map behaves as the dict of the source.  Its keys stay
    pairwise distinct, so the value paired with a key is the value a lookup
    of that key gives; a valid user entry (key and value not blank) that
    comes last sets its lowercased, stripped key to its stripped value and
    leaves every other key as it was; a blank entry changes nothing. *)
Theorem user_entry_overrides_category `{UnicodeDB}
    (user_map : list (str * str)) (kk vv : str) :
  NoDup (category_map user_map).*1
  ∧ (∀ e, e ∈ category_map user_map →
          dict_get e.1 (category_map user_map) = Some e.2)
  ∧ (strip kk ≠ [] → strip vv ≠ [] →
     dict_get (lower (strip kk)) (category_map (user_map ++ [(kk, vv)]))
     = Some (strip vv)
     ∧ ∀ k', k' ≠ lower (strip kk) →
         dict_get k' (category_map (user_map ++ [(kk, vv)]))
         = dict_get k' (category_map user_map))
  ∧ (strip kk = [] ∨ strip vv = [] →
     category_map (user_map ++ [(kk, vv)]) = category_map user_map).
Proof.
  assert (Hnd : ∀ um, NoDup (category_map um).*1).
  { intros um. unfold category_map.
    assert (Hb : NoDup builtin_category_map.*1)
      by (apply (bool_decide_unpack _); vm_compute; exact I).
    revert Hb. generalize builtin_category_map.
    induction um as [|kv um IH]; intros m Hm; simpl; [done|].
    apply IH. destruct (nonempty _ && nonempty _); [|done].
    by apply dict_set_NoDup. }
  split_and!.
  - apply Hnd.
  - intros e He. by apply dict_get_NoDup.
  - intros Hk Hv. unfold category_map. rewrite foldl_app. simpl.
    rewrite (nonempty_ne _ Hk), (nonempty_ne _ Hv). simpl.
    split; [apply dict_get_set_eq|]. intros k' Hne. by apply dict_get_set_ne.
  - intros Hblank. unfold category_map. rewrite foldl_app. simpl.
    destruct Hblank as [-> | ->]; simpl; [done|]. by rewrite andb_false_r.
Qed.

Lemma user_entry_overrides_category_witness :
  @strip Latin.db (lit " Makina ") ≠ []
  ∧ @strip Latin.db (lit " Makine Bayi ") ≠ []
  ∧ dict_get (lit "makina")
      (@category_map Latin.db [(lit " Makina ", lit " Makine Bayi ")])
    = Some (lit "Makine Bayi").
Proof.
  assert (H1 : @strip Latin.db (lit " Makina ") ≠ [])
    by (vm_compute; discriminate).
  assert (H2 : @strip Latin.db (lit " Makine Bayi ") ≠ [])
    by (vm_compute; discriminate).
  split_and!; [exact H1|exact H2|].
  exact (proj1 (proj1 (proj2 (proj2
           (@user_entry_overrides_category Latin.db [] (lit " Makina ")
              (lit " Makine Bayi ")))) H1 H2)).
Defined.

(** X24. The province that [_parse_il_from_address_only] reads off a text is
    the stripped text itself or a province of the table, and in both cases
    its normal form is the normal form of the stripped text: replacing the
    text by the table's spelling never changes the verdict of a comparison of
    normal forms. *)
Theorem known_il_keeps_normal_form `{UnicodeDB} (parsed_il : str) :
  (known_il parsed_il = strip parsed_il
   ∨ known_il parsed_il ∈ POSTAL_CODE_TO_IL.*2)
  ∧ _normalize_il_name (known_il parsed_il)
    = _normalize_il_name (strip parsed_il).
Proof.
  unfold known_il.
  destruct (List.find _ _) as [il_name|] eqn:Ef; [|by split; [left|]].
  apply List.find_some in Ef as [Hin Heq].
  apply bool_decide_eq_true in Heq. split; [right|done].
  by apply list_elem_of_In.
Qed.
